(** * Tardis: the data-cleaning notebook [tardis_eda.ipynb], embedded and verified

  The notebook is a linear script over a pandas [DataFrame].  Each cell of the
  notebook that carries logic is embedded here as a function of the same
  name: text is [string] (8-bit characters), a frame is a finite map from
  column names to series, [print] is an explicit list of emitted lines and a
  Python exception is an explicit [Raise] outcome. *)

From Stdlib Require Import ZArith QArith Lqa Ascii.
From stdpp Require Import base option list strings gmap pretty sorting.

Local Open Scope string_scope.
Local Open Scope list_scope.

(** ** Regular expressions of the shape the notebook uses

  Both patterns of the date cell, [\d{4}[^-]\d{2}] and
  [(\d{4})([^-])(\d{2})], are sequences of single-character classes, the
  second one cut into three capture groups.  Such a pattern matches a fixed
  number of characters, so matching needs no backtracking. *)
Module Re.

Inductive char_class : Type :=
| Digit                       (* \d, on 8-bit text the characters 0 to 9 *)
| NotChar (c : ascii).        (* [^c] *)

Definition is_digit (c : ascii) : bool :=
  let n := Ascii.N_of_ascii c in ((48 <=? n) && (n <=? 57))%N.

Definition class_matches (k : char_class) (c : ascii) : bool :=
  match k with
  | Digit => is_digit c
  | NotChar d => negb (Ascii.eqb c d)
  end.

(** [repeat_class k n] is the pattern [k{n}]. *)
Definition repeat_class (k : char_class) (n : nat) : list char_class :=
  replicate n k.

(** [match_classes p s]: the text the class sequence [p] matches at the
    start of [s] and the text left after it, or [None]. *)
Fixpoint match_classes (p : list char_class) (s : string)
  : option (string * string) :=
  match p with
  | [] => Some ("", s)
  | k :: p' =>
      match s with
      | "" => None
      | String c s' =>
          if class_matches k c then
            match match_classes p' s' with
            | Some (m, rest) => Some (String c m, rest)
            | None => None
            end
          else None
      end
  end.

(** A pattern with capture groups is the list of its groups; it matches
    the groups one after the other and returns the text of each. *)
Fixpoint match_groups (gs : list (list char_class)) (s : string)
  : option (list string * string) :=
  match gs with
  | [] => Some ([], s)
  | g :: gs' =>
      match match_classes g s with
      | Some (m, rest) =>
          match match_groups gs' rest with
          | Some (ms, rest') => Some (m :: ms, rest')
          | None => None
          end
      | None => None
      end
  end.

(** [re.match(p, s)] as a truth value: the pattern matches at position 0. *)
Definition re_match (p : list char_class) (s : string) : bool :=
  match match_classes p s with Some _ => true | None => false end.

(** A replacement template: literal text and group references [\n]. *)
Inductive template_item : Type :=
| Lit (s : string)
| Group (n : nat).            (* numbered from 1, as in Python *)

Fixpoint expand (t : list template_item) (groups : list string) : string :=
  match t with
  | [] => ""
  | Lit s :: t' => s +:+ expand t' groups
  | Group n :: t' => default "" (groups !! pred n) +:+ expand t' groups
  end.

Definition pattern_length (gs : list (list char_class)) : nat :=
  length (concat gs).

(** [re.sub(p, t, s)]: scan [s] from the left; where the pattern matches,
    emit the expanded template and resume after the match, elsewhere copy
    the character.  [skip] counts the characters of the current match not
    yet passed over. *)
Fixpoint sub_scan (gs : list (list char_class)) (t : list template_item)
         (skip : nat) (s : string) : string :=
  match s with
  | "" => ""
  | String c s' =>
      match skip with
      | S k => sub_scan gs t k s'
      | O =>
          match match_groups gs s with
          | Some (ms, _) =>
              expand t ms +:+ sub_scan gs t (pred (pattern_length gs)) s'
          | None => String c (sub_scan gs t 0 s')
          end
      end
  end.

Definition re_sub (gs : list (list char_class)) (t : list template_item)
           (s : string) : string :=
  sub_scan gs t 0 s.

End Re.

(** ** The date cell: repairing malformed [Date] tokens *)
Module DateRepair.
Import Re.

(** [r"\d{4}[^-]\d{2}"] *)
Definition detect_pattern : list char_class :=
  repeat_class Digit 4 ++ [NotChar "-"%char] ++ repeat_class Digit 2.

(** [r"(\d{4})([^-])(\d{2})"] *)
Definition repair_pattern : list (list char_class) :=
  [repeat_class Digit 4; [NotChar "-"%char]; repeat_class Digit 2].

(** [r"\1-\3"] *)
Definition repair_template : list template_item :=
  [Group 1; Lit "-"; Group 3].

(** The lambda applied to every entry of [df["Date"].astype(str)]:
    [re.sub(...) if re.match(...) else x]. *)
Definition date_repair (x : string) : string :=
  if re_match detect_pattern x
  then re_sub repair_pattern repair_template x
  else x.

End DateRepair.


(** ** Python effects: printed lines and exceptions

    A notebook cell prints progress lines and may raise.  [Py A] is the result
    of running such code: the value or the exception, and the lines printed
    on the way (those printed before an exception are kept). *)
Module Python.

Inductive exn : Type :=
| TypeError
| KeyError (key : string).

Inductive outcome (A : Type) : Type :=
| Ok (a : A)
| Raise (e : exn).
Arguments Ok {A} a.
Arguments Raise {A} e.

Definition Py (A : Type) : Type := (outcome A * list string)%type.

Definition py_ret {A} (a : A) : Py A := (Ok a, []).

Definition py_bind {A B} (m : Py A) (f : A → Py B) : Py B :=
  match m.1 with
  | Ok a => let r := f a in (r.1, m.2 ++ r.2)
  | Raise e => (Raise e, m.2)
  end.

Definition print (line : string) : Py unit := (Ok tt, [line]).

Definition raise {A} (e : exn) : Py A := (Raise e, []).

Notation "'do' x <- m ; k" := (py_bind m (λ x, k))
  (at level 10, x name, m at level 100, k at level 200,
   format "'[v' 'do'  x  <-  m ; '/' k ']'").
Notation "'do_' m ; k" := (py_bind m (λ _, k))
  (at level 10, m at level 100, k at level 200,
   format "'[v' 'do_'  m ; '/' k ']'").

(** [Series.apply(f)] for an [f] with effects: the entries in order. *)
Fixpoint apply {A B} (f : A → Py B) (l : list A) : Py (list B) :=
  match l with
  | [] => py_ret []
  | x :: l' => do y <- f x; do ys <- apply f l'; py_ret (y :: ys)
  end.

(** [any(mask)] and [mask.sum()] of a boolean series. *)
Definition any (mask : list bool) : bool := existsb id mask.
Definition count_true (mask : list bool) : nat := length (filter (λ b, b = true) mask).

(** [x in s] on text: [sub] occurs in [s]. *)
Fixpoint contains (sub s : string) : bool :=
  String.prefix sub s ||
  match s with
  | "" => false
  | String _ s' => contains sub s'
  end.

End Python.

(** ** Numbers as pandas holds them

    A numeric column holds 64-bit floats.  The notebook only compares them
    with constants and overwrites them with constants, never computes with
    them, so a float is modelled by the rational it denotes, the two
    infinities, or NaN.  Comparisons are IEEE's: every comparison with NaN
    is false. *)
Module Float.

Inductive float : Type :=
| NaN
| NegInf
| Fin (q : Q)
| PosInf.

Definition isna (x : float) : bool :=
  match x with NaN => true | _ => false end.

(** [x < y] *)
Definition ltb (x y : float) : bool :=
  match x, y with
  | NaN, _ | _, NaN => false
  | NegInf, NegInf => false
  | NegInf, _ => true
  | Fin _, NegInf => false
  | Fin p, Fin q => negb (Qle_bool q p)
  | Fin _, PosInf => true
  | PosInf, _ => false
  end.

(** [x > y] *)
Definition gtb (x y : float) : bool := ltb y x.

(** [x <= y] *)
Definition leb (x y : float) : bool :=
  match x, y with
  | NaN, _ | _, NaN => false
  | NegInf, _ => true
  | Fin _, NegInf => false
  | Fin p, Fin q => Qle_bool p q
  | Fin _, PosInf => true
  | PosInf, PosInf => true
  | PosInf, _ => false
  end.

Definition of_Z (z : Z) : float := Fin (inject_Z z).

End Float.

(** ** Series and frames

    A series has one dtype.  A text column read from the CSV file holds
    [str] entries and NaN where the file had nothing ([Text], [None] for
    NaN).  A frame is its row labels and its columns by name; every column
    is as long as the index. *)
Module Frame.
Import Python Float.

Inductive series : Type :=
| Text (l : list (option string))       (* object: str or NaN *)
| Float64 (l : list float)
| Int64 (l : list Z)
| Datetime (l : list (option Z)).       (* datetime64: a time or NaT *)

Record frame : Type := mk_frame {
  index : list nat;
  columns : gmap string series;
}.

Definition size (s : series) : nat :=
  match s with
  | Text l => length l
  | Float64 l => length l
  | Int64 l => length l
  | Datetime l => length l
  end.

Definition well_formed (df : frame) : Prop :=
  ∀ col s, columns df !! col = Some s → size s = length (index df).

(** [df[col]] *)
Definition getitem (df : frame) (col : string) : Py series :=
  match columns df !! col with
  | Some s => py_ret s
  | None => raise (KeyError col)
  end.

(** [df[col] = s] *)
Definition setitem (df : frame) (col : string) (s : series) : frame :=
  mk_frame (index df) (<[col := s]> (columns df)).

(** [l[mask]]: the entries where the mask is true. *)
Fixpoint select {A} (mask : list bool) (l : list A) : list A :=
  match mask, l with
  | b :: mask', x :: l' => if b then x :: select mask' l' else select mask' l'
  | _, _ => []
  end.

Definition select_series (mask : list bool) (s : series) : series :=
  match s with
  | Text l => Text (select mask l)
  | Float64 l => Float64 (select mask l)
  | Int64 l => Int64 (select mask l)
  | Datetime l => Datetime (select mask l)
  end.

(** [df[mask]]: the rows where the mask is true, labels kept. *)
Definition boolean_index (df : frame) (mask : list bool) : frame :=
  mk_frame (select mask (index df)) (select_series mask <$> columns df).

(** One entry of a series, and [s.iloc[k]]. *)
Inductive cell : Type :=
| TextCell (x : option string)
| FloatCell (x : float)
| IntCell (z : Z)
| TimeCell (t : option Z).

Definition iloc (s : series) (k : nat) : option cell :=
  match s with
  | Text l => TextCell <$> l !! k
  | Float64 l => FloatCell <$> l !! k
  | Int64 l => IntCell <$> l !! k
  | Datetime l => TimeCell <$> l !! k
  end.

(** [s.loc[mask] = v] on the values of one column. *)
Fixpoint loc_assign {A} (mask : list bool) (v : A) (l : list A) : list A :=
  match mask, l with
  | b :: mask', x :: l' => (if b then v else x) :: loc_assign mask' v l'
  | _, _ => l
  end.

End Frame.

(** ** The fuzzy corrector

    [process.extractOne] belongs to the fuzzywuzzy package, not to the
    notebook.  Its control flow is embedded here; the similarity measure it
    applies to the query and to each choice (the package's default scorer,
    an integer from 0 to 100) is the parameter [scorer]. *)
Module Fuzzy.
Import Python.

Section Corrector.

Variable scorer : string → string → N.

(** [process.extractWithoutOrder(query, choices, score_cutoff=0)]: the
    choices in the order of the list, each with its score, those under the
    cutoff left out. *)
Definition extractWithoutOrder (query : string) (choices : list string)
           (score_cutoff : N) : list (string * N) :=
  filter (λ p, (score_cutoff ≤ p.2)%N)
         ((λ choice, (choice, scorer query choice)) <$> choices).

(** Python's [max(iterable, key=...)]: the first of the maximal items, and
    a [ValueError] (here [None]) on an empty iterable. *)
Fixpoint max_from {A} (key : A → N) (best : A) (l : list A) : A :=
  match l with
  | [] => best
  | x :: l' => max_from key (if (key best <? key x)%N then x else best) l'
  end.

Definition py_max {A} (key : A → N) (l : list A) : option A :=
  match l with
  | [] => None
  | x :: l' => Some (max_from key x l')
  end.

(** [process.extractOne(query, choices)]: the best pair, or [None]. *)
Definition extractOne (query : string) (choices : list string)
  : option (string * N) :=
  py_max snd (extractWithoutOrder query choices 0).

Definition correcting_line (name matched : string) (score threshold : N)
  : string :=
  "Correcting '" +:+ name +:+ "' to '" +:+ matched +:+ "' - Score: "
  +:+ pretty score +:+ " (Threshold: " +:+ pretty threshold +:+ ")".

(** [correct_station_from_top(name, top_list, threshold)].  [name] is an
    entry of a text column: [None] is NaN.  Unpacking the [None] that
    [extractOne] returns for an empty list raises [TypeError]. *)
Definition correct_station_from_top (name : option string)
           (top_list : list string) (threshold : N) : Py (option string) :=
  match name with
  | None => py_ret name
  | Some text =>
      match extractOne text top_list with
      | None => raise TypeError
      | Some (matched, score) =>
          do_ (if (score <? threshold)%N
               then print (correcting_line text matched score threshold)
               else py_ret tt);
          py_ret (if (threshold <=? score)%N then Some matched else name)
      end
  end.

(** The default of the [threshold] argument; no call passes another. *)
Definition default_threshold : N := 75.

(** [column.apply(lambda x: correct_station_from_top(x, top_list))] *)
Definition correct_column (column : list (option string))
           (top_list : list string) : Py (list (option string)) :=
  apply (λ x, correct_station_from_top x top_list default_threshold) column.

End Corrector.

(** A scorer to run the corrector on examples: 100 for the same text and 0
    for any other.  It stands in for the package's scorer there; every
    theorem below is about an arbitrary scorer. *)
Definition same_text_scorer (query choice : string) : N :=
  if bool_decide (query = choice) then 100 else 0.

End Fuzzy.

(** ** The date cells: repair, future-date filter, conversion

    [pd.to_datetime] and [datetime.now] are the library's.  On a text,
    parsing gives a timestamp, with a time zone when the text names one
    (a UTC offset), gives NaT (the texts pandas reads as missing) or
    raises [ValueError]; [to_datetime] is the parser without a format,
    [to_datetime_Ym] the one called with the format [%Y-%m].  Times are
    integers.  The filter calls [datetime.now()] once per row: [now k] is
    the reading of the call made for the row at position [k]. *)
Module Dates.
Import Python Float Frame DateRepair.

Inductive parsed : Type :=
| Timestamp (t : Z)             (* a time without a time zone *)
| Aware (t : Z)                 (* a time with a time zone *)
| NaT
| ParseError.                   (* raises ValueError *)

Section DateCells.

Variable to_datetime : string → parsed.
Variable to_datetime_Ym : string → parsed.
Variable now : nat → Z.
(** [str(x)] of a float and of a timestamp, and the [.2%] format of the
    ratio of two counts: Python's, used by [astype(str)] and by one
    progress line. *)
Variable float_str : float → string.
Variable datetime_str : option Z → string.
Variable percent_str : nat → nat → string.

(** [series.astype(str)] *)
Definition astype_str (s : series) : list string :=
  match s with
  | Text l => (λ x, default "nan" x) <$> l
  | Float64 l => float_str <$> l
  | Int64 l => pretty <$> l
  | Datetime l => datetime_str <$> l
  end.

(** [pd.to_datetime(x, errors="coerce")]: a parse error becomes NaT. *)
Definition to_datetime_coerce (x : string) : parsed :=
  match to_datetime x with
  | ParseError => NaT
  | p => p
  end.

(** [lambda x: pd.to_datetime(x, errors="coerce") <= datetime.now()], for
    the row at position [k].  A comparison with NaT is false.  The clock's
    reading has no time zone, and a time that has one does not compare
    with it: [TypeError]. *)
Definition not_in_future (k : nat) (x : string) : Py bool :=
  match to_datetime_coerce x with
  | Timestamp t => py_ret (t <=? now k)%Z
  | Aware _ => raise TypeError
  | NaT | ParseError => py_ret false
  end.

(** [series.apply(f)] from the row at position [k] on, [f k] being the
    call for that row. *)
Fixpoint apply_from {A B} (f : nat → A → Py B) (k : nat) (l : list A)
  : Py (list B) :=
  match l with
  | [] => py_ret []
  | x :: l' => do y <- f k x; do ys <- apply_from f (S k) l'; py_ret (y :: ys)
  end.

(** [safe_date_convert(date_str)].  [None] is NaN on the way in and NaT on
    the way out. *)
Definition safe_date_convert (date_str : option string) : Py (option Z) :=
  match date_str with
  | None => py_ret None
  | Some s =>
      if bool_decide (s = "") || bool_decide (s = "N/A") then py_ret None
      else
        match to_datetime_Ym s with
        | Timestamp t | Aware t => py_ret (Some t)
        | NaT => py_ret None
        | ParseError =>
            match to_datetime s with
            | Timestamp t | Aware t => py_ret (Some t)
            | NaT => py_ret None
            | ParseError =>
                do_ print ("Could not parse date: " +:+ s);
                py_ret None
            end
        end
  end.

(** The frames the three date cells leave behind: [df], which every later
    cell keeps working on and which [to_csv] writes, and [df_clean], which
    no later cell reads. *)
Record date_cells_result : Type := mk_dates {
  df : frame;
  df_clean : frame;
}.

Definition notna (t : option Z) : bool :=
  match t with Some _ => true | None => false end.

(** Cells 167e4d79, 8cc92344 and 81f6ccde in sequence; a cell that raises
    ends the run.  [dates] is the content of [df["Date"]] between the
    statements.  The mask of a frame without rows is an empty series of
    objects, which [df[mask]] does not take for a mask but for a list of
    column names: the frame is left without columns, and the next cell,
    after its first line, does not find [df["Date"]]. *)
Definition clean_dates (df0 : frame) : Py date_cells_result :=
  do s <- getitem df0 "Date";
  let dates := date_repair <$> astype_str s in
  let df1 := setitem df0 "Date" (Text (Some <$> dates)) in
  (* Remove date in the future *)
  do mask <- apply_from not_in_future 0 dates;
  if bool_decide (mask = []) then
    do_ print "Converting dates...";
    raise (KeyError "Date")
  else
    let df2 := boolean_index df1 mask in
    let dates := select mask dates in
    do_ print "Converting dates...";
    do converted <- apply safe_date_convert (Some <$> dates);
    let df3 := setitem df2 "Date" (Datetime converted) in
    let valid_dates := count_true (notna <$> converted) in
    let total_rows := length (index df3) in
    do_ print ("Successfully converted " +:+ pretty valid_dates
               +:+ " out of " +:+ pretty total_rows +:+ " dates ("
               +:+ percent_str valid_dates total_rows +:+ ")");
    py_ret (mk_dates df3 (boolean_index df3 (notna <$> converted))).

(** The answer of the filter for the row at position [k], where it has
    one. *)
Definition passes_filter (k : nat) (x : string) : bool :=
  match to_datetime x with
  | Timestamp t => (t <=? now k)%Z
  | _ => false
  end.

(** The filter's parser reads no time zone in the text. *)
Definition zone_free (x : string) : Prop := ∀ t, to_datetime x ≠ Aware t.

(** The date of a row, as the filter reads it, is in the future at the
    time the filter looks at the row. *)
Definition in_future (k : nat) (x : string) : Prop :=
  ∃ t, to_datetime x = Timestamp t ∧ (now k < t)%Z.

(** Neither the parser with the format nor the fallback parser makes a
    timestamp of the text. *)
Definition remains_unparsable (x : string) : Prop :=
  (∀ t, to_datetime_Ym x ≠ Timestamp t) ∧ (∀ t, to_datetime x ≠ Timestamp t).

End DateCells.

(** Parsers and a clock to run the date cells on examples: two texts have
    a date, every other text is a parse error, and the clock stands still
    between the two dates. *)
Definition example_to_datetime (x : string) : parsed :=
  if bool_decide (x = "2023-04") then Timestamp 1680307200
  else if bool_decide (x = "2999-01") then Timestamp 32472144000
  else ParseError.

(** The same parser, reading a time with a time zone in one more text. *)
Definition example_to_datetime_zone (x : string) : parsed :=
  if bool_decide (x = "2023-04-01 00:00:00+00:00") then Aware 1680307200
  else example_to_datetime x.

Definition example_now (k : nat) : Z := 1793664000.

(** The date cells on three rows: a past date, a future date written with
    a dot, and a text that is no date. *)
Definition example_dates : frame :=
  mk_frame [0; 1; 2]%nat
    {[ "Date" := Text [Some "2023-04"; Some "2999.01"; Some "soon"] ]}.

Definition example_clean_dates : Py date_cells_result :=
  clean_dates example_to_datetime example_to_datetime example_now
    (λ _, "") (λ _, "") (λ _ _, "") example_dates.

End Dates.

(** ** The numeric sanitizer *)
Module Sanitizer.
Import Python Float Frame.

(** [numeric_columns] *)
Definition numeric_columns : list string :=
  [ "Average journey time";
    "Number of scheduled trains";
    "Number of cancelled trains";
    "Number of trains delayed at departure";
    "Number of trains delayed at arrival";
    "Number of trains delayed > 15min";
    "Number of trains delayed > 30min";
    "Number of trains delayed > 60min";
    "Average delay of late trains at departure";
    "Average delay of all trains at departure";
    "Average delay of late trains at arrival";
    "Average delay of all trains at arrival";
    "Average delay of trains > 15min (if competing with flights)";
    "Pct delay due to external causes";
    "Pct delay due to infrastructure";
    "Pct delay due to traffic management";
    "Pct delay due to rolling stock";
    "Pct delay due to station management and equipment reuse";
    "Pct delay due to passenger handling (crowding, disabled persons, connections)" ].

Section Cleanup.

(** The number a text token denotes for [pd.to_numeric], if any. *)
Variable str_to_float : string → option float.

(** [pd.to_numeric(series, errors="coerce")]: a token that is no number
    becomes NaN; a datetime column is read as the 64-bit integers it
    holds, NaT being the least of them.  pandas reads a text column as
    integers when every token is one and as floats otherwise, so that an
    integer of 2^53 or more is exact in the first case and rounded in the
    second; token by token the reading is the same under 2^53. *)
Definition to_numeric (s : series) : list float :=
  match s with
  | Text l => (λ x, default NaN (x ≫= str_to_float)) <$> l
  | Float64 l => l
  | Int64 l => of_Z <$> l
  | Datetime l => (λ t, of_Z (default (- 2 ^ 63)%Z t)) <$> l
  end.

(** The body of the loop for one column that the frame has; [v] is the
    content of [df[col]] between the statements. *)
Definition clean_numeric_column (col : string) (s : series)
  : Py (list float) :=
  let v := to_numeric s in
  (* negative values are set to 0 *)
  let negative := (λ x, ltb x (Fin 0)) <$> v in
  do v <- (if any negative
           then do_ print ("Found " +:+ pretty (count_true negative)
                           +:+ " negative values in " +:+ col);
                py_ret (loc_assign negative (Fin 0) v)
           else py_ret v);
  do v <- (if contains "Average" col
           then
             let max_reasonable_delay := Fin 500 in
             let outliers := (λ x, gtb x max_reasonable_delay) <$> v in
             if any outliers
             then do_ print ("Found " +:+ pretty (count_true outliers)
                             +:+ " outliers in " +:+ col
                             +:+ " (values > 500.0)");
                  py_ret (loc_assign outliers NaN v)
             else py_ret v
           else py_ret v);
  if contains "Pct" col
  then
    let over_hundred := (λ x, gtb x (Fin 100)) <$> v in
    do v <- (if any over_hundred
             then do_ print ("Found " +:+ pretty (count_true over_hundred)
                             +:+ " values over 100% in " +:+ col);
                  py_ret (loc_assign over_hundred (Fin 100) v)
             else py_ret v);
    let negative := (λ x, ltb x (Fin 0)) <$> v in
    if any negative
    then do_ print ("Found " +:+ pretty (count_true negative)
                    +:+ " negative values in " +:+ col);
         py_ret (loc_assign negative (Fin 0) v)
    else py_ret v
  else py_ret v.

(** The tokens of a text column are read to the same numbers whether
    pandas takes the column for integers or for floats: every number read
    is under 2^53 in magnitude. *)
Definition read_exactly (tokens : list (option string)) : Prop :=
  ∀ token q,
    Some token ∈ tokens → str_to_float token = Some (Fin q) →
    (- 9007199254740992 < q)%Q ∧ (q < 9007199254740992)%Q.

(** One turn of [for col in numeric_columns: if col in df.columns: ...]. *)
Definition clean_step (df : frame) (col : string) : Py frame :=
  match columns df !! col with
  | Some s =>
      do v <- clean_numeric_column col s;
      py_ret (setitem df col (Float64 v))
  | None => py_ret df
  end.

Fixpoint for_each {A S} (body : S → A → Py S) (st : S) (l : list A) : Py S :=
  match l with
  | [] => py_ret st
  | x :: l' => do st' <- body st x; for_each body st' l'
  end.

(** The whole loop. *)
Definition clean_numeric_columns (df : frame) : Py frame :=
  for_each clean_step df numeric_columns.

End Cleanup.

(** *** The sanitizer as the specification words it

    Value by value, after the coercion: a negative value becomes 0; in a
    column whose name has "Average" in it a value over 500 becomes missing;
    in a column whose name has "Pct" in it a value over 100 becomes 100 and
    a value under 0 becomes 0. *)
Definition average_columns : list string :=
  [ "Average journey time";
    "Average delay of late trains at departure";
    "Average delay of all trains at departure";
    "Average delay of late trains at arrival";
    "Average delay of all trains at arrival";
    "Average delay of trains > 15min (if competing with flights)" ].

Definition percentage_columns : list string :=
  [ "Pct delay due to external causes";
    "Pct delay due to infrastructure";
    "Pct delay due to traffic management";
    "Pct delay due to rolling stock";
    "Pct delay due to station management and equipment reuse";
    "Pct delay due to passenger handling (crowding, disabled persons, connections)" ].

Definition zero_negative (x : float) : float :=
  if ltb x (Fin 0) then Fin 0 else x.

Definition null_large_average (col : string) (x : float) : float :=
  if contains "Average" col && gtb x (Fin 500) then NaN else x.

Definition clamp_percentage (col : string) (x : float) : float :=
  if contains "Pct" col
  then let y := if gtb x (Fin 100) then Fin 100 else x in
       if ltb y (Fin 0) then Fin 0 else y
  else x.

Definition sanitize_value (col : string) (x : float) : float :=
  clamp_percentage col (null_large_average col (zero_negative x)).

(** *** Range conditions on the values of a column *)
Definition in_percentage_range (x : float) : Prop :=
  leb (Fin 0) x = true ∧ leb x (Fin 100) = true.

Definition at_most_500 (x : float) : Prop := leb x (Fin 500) = true.

Definition not_negative (x : float) : Prop := ltb x (Fin 0) = false.

Definition missing (x : float) : Prop := isna x = true.

(** *** The loop as a function of the frame, printing left out *)
Section Cleaned.

Variable str_to_float : string → option float.

(** What the loop leaves in the column [col] when it holds [s]. *)
Definition cleaned (col : string) (s : series) : series :=
  Float64 (sanitize_value col <$> to_numeric str_to_float s).

Definition cleaned_step (df : frame) (col : string) : frame :=
  match columns df !! col with
  | Some s => setitem df col (cleaned col s)
  | None => df
  end.

End Cleaned.

(** A frame and a token reader to run the loop on an example. *)
Definition example_str_to_float (token : string) : option float :=
  if bool_decide (token = "150") then Some (Fin 150)
  else if bool_decide (token = "40.5") then Some (Fin (81 # 2))
  else None.

Definition example_numbers : frame :=
  mk_frame [0; 1; 2]%nat
    {[ "Average journey time" := Float64 [Fin (-5); Fin 600; Fin 120];
       "Pct delay due to infrastructure"
         := Text [Some "150"; Some "n/a"; Some "40.5"];
       "Comment" := Text [None; Some "-1"; None] ]}.

End Sanitizer.

(** ** The significant-delay flag of the last cell *)
Module Features.
Import Python Float Frame.

Definition arrival_delay : string := "Average delay of all trains at arrival".

(** [series > n] for an integer [n]: numbers compare, NaN compares false,
    a [str] or a timestamp against a number raises [TypeError]. *)
Definition series_gt (s : series) (n : Z) : Py (list bool) :=
  match s with
  | Float64 l => py_ret ((λ x, gtb x (of_Z n)) <$> l)
  | Int64 l => py_ret ((λ x, (n <? x)%Z) <$> l)
  | Text l =>
      apply (λ x : option string,
               match x with None => py_ret false | Some _ => raise TypeError end) l
  | Datetime _ => raise TypeError
  end.

(** [mask.astype(int)] *)
Definition astype_int (mask : list bool) : list Z :=
  (λ b : bool, if b then 1%Z else 0%Z) <$> mask.

(** [df["Is_Significantly_Delayed"] = (df[arrival_delay] > 15).astype(int)] *)
Definition flag_significant_delays (df : frame) : Py frame :=
  do s <- getitem df arrival_delay;
  do mask <- series_gt s 15;
  py_ret (setitem df "Is_Significantly_Delayed" (Int64 (astype_int mask))).

End Features.

(** ** The season of a month *)
Module Seasons.

(** The lambda applied to [df["Date"].dt.month]; the month of a missing
    date is NaN, here [None]. *)
Definition season (x : option Z) : string :=
  match x with
  | Some m =>
      if bool_decide (m ∈ [12; 1; 2]%Z) then "Winter"
      else if bool_decide (m ∈ [3; 4; 5]%Z) then "Spring"
      else if bool_decide (m ∈ [6; 7; 8]%Z) then "Summer"
      else if bool_decide (m ∈ [9; 10; 11]%Z) then "Fall"
      else "Unknown"
  | None => "Unknown"
  end.

End Seasons.

(** ** The choice of the best model (the model notebook)

    Training and scoring are scikit-learn's; [rmse name] is the test RMSE
    that [evaluate_model] reports for the model called [name]. *)
Module ModelSelection.
Import Float.

(** The keys of [models], and so of [results], in insertion order. *)
Definition model_names : list string :=
  ["Linear Regression"; "Decision Tree"; "Random Forest"; "Gradient Boosting"].

(** Python's [min(iterable, key=...)]: the current item gives way only to
    one whose key is smaller. *)
Fixpoint min_from {A} (key : A → float) (best : A) (l : list A) : A :=
  match l with
  | [] => best
  | x :: l' => min_from key (if ltb (key x) (key best) then x else best) l'
  end.

Definition py_min {A} (key : A → float) (l : list A) : option A :=
  match l with
  | [] => None
  | x :: l' => Some (min_from key x l')
  end.

(** [best_model_name = min(results, key=lambda k: results[k]["rmse"])] *)
Definition best_model_name (rmse : string → float) : option string :=
  py_min rmse model_names.

End ModelSelection.

(** ** The normalizer of names

    [normalize_station_name] is built from [str.strip], [str.title],
    [str.split] and [str.join].  They are embedded as Python defines them on
    ASCII text: the cased characters are the letters A to Z and a to z, and
    the whitespace characters are those of [str.isspace] under 128. *)
Module Normalizer.

Definition is_ascii (c : ascii) : bool := (N_of_ascii c <? 128)%N.

Definition ascii_text (s : string) : Prop :=
  Forall (λ c, is_ascii c = true) (String.list_ascii_of_string s).

Definition is_upper (c : ascii) : bool :=
  let n := N_of_ascii c in ((65 <=? n) && (n <=? 90))%N.

Definition is_lower (c : ascii) : bool :=
  let n := N_of_ascii c in ((97 <=? n) && (n <=? 122))%N.

Definition to_upper (c : ascii) : ascii :=
  if is_lower c then ascii_of_N (N_of_ascii c - 32) else c.

Definition to_lower (c : ascii) : ascii :=
  if is_upper c then ascii_of_N (N_of_ascii c + 32) else c.

(** [c.isspace()]: tab to carriage return, the four separators 28 to 31,
    and the space. *)
Definition is_space (c : ascii) : bool :=
  let n := N_of_ascii c in
  ((9 <=? n) && (n <=? 13) || (28 <=? n) && (n <=? 32))%N.

(** [str.title()]: a letter after a letter is put in lower case, a letter
    after anything else, or at the start, in upper case. *)
Fixpoint title_from (previous_is_cased : bool) (s : string) : string :=
  match s with
  | "" => ""
  | String c s' =>
      if is_lower c || is_upper c
      then String (if previous_is_cased then to_lower c else to_upper c)
                  (title_from true s')
      else String c (title_from false s')
  end.

Definition title (s : string) : string := title_from false s.

(** [str.lstrip()], [str.rstrip()], [str.strip()] *)
Fixpoint lstrip (s : string) : string :=
  match s with
  | "" => ""
  | String c s' => if is_space c then lstrip s' else s
  end.

Fixpoint rstrip (s : string) : string :=
  match s with
  | "" => ""
  | String c s' =>
      let r := rstrip s' in
      if is_space c && bool_decide (r = "") then "" else String c r
  end.

Definition strip (s : string) : string := rstrip (lstrip s).

(** [str.split()]: the runs of characters that are not whitespace.
    [split_head s] is the run that starts at the head of [s], empty if [s]
    starts with whitespace, and the runs after it. *)
Definition cons_word (w : string) (ws : list string) : list string :=
  if bool_decide (w = "") then ws else w :: ws.

Fixpoint split_head (s : string) : string * list string :=
  match s with
  | "" => ("", [])
  | String c s' =>
      let '(w, ws) := split_head s' in
      if is_space c then ("", cons_word w ws) else (String c w, ws)
  end.

Definition split (s : string) : list string :=
  let '(w, ws) := split_head s in cons_word w ws.

(** [sep.join(words)] *)
Definition join (sep : string) (words : list string) : string :=
  String.concat sep words.

(** [normalize_station_name(text)]; an entry that is no [str] (NaN, here
    [None]) is returned as it is. *)
Definition normalize_station_name (text : option string) : option string :=
  match text with
  | Some s => Some (join " " (split (title (strip s))))
  | None => text
  end.

(** A run of characters without whitespace, not empty. *)
Definition word (w : string) : Prop :=
  w ≠ "" ∧ Forall (λ c, is_space c = false) (String.list_ascii_of_string w).

(** What [title] does to one character, and the words [split] gives. *)
Definition cased (c : ascii) : bool := is_lower c || is_upper c.

Definition title_char (previous_is_cased : bool) (c : ascii) : ascii :=
  if cased c then (if previous_is_cased then to_lower c else to_upper c)
  else c.

Definition no_space (w : string) : Prop :=
  Forall (λ c, is_space c = false) (String.list_ascii_of_string w).

End Normalizer.

(** ** The model notebook from the choice of the best model on

    The cells that choose the best model, tune it, and save it, run in this
    order in a fresh kernel; a cell that raises ends the run.  Training,
    grid search and the drawing of the charts are scikit-learn's and
    matplotlib's: [rmse_of name] is the test RMSE in [results] for the
    model called [name]; [grid_search] is what [GridSearchCV] finds for the
    chosen model and what the tuned model scores on the test set, or the
    exception [fit] raises (with [cv=5] it does on a training set of fewer
    than five rows); [comparison_chart] and [draw] say of each chart
    whether the library draws it or raises; [fmt2] is the format [:.2f].
    Writing a file is taken to succeed.  What the cells print, draw and
    pickle is recorded in order. *)
Module ModelNotebook.
Import Float ModelSelection.

Inductive param : Type :=
| PNone
| PInt (n : Z)
| PFloat (q : Q).

(** The [param_grid] of the tuning cell. *)
Definition param_grid (best_model_name : string)
  : list (string * list param) :=
  if bool_decide (best_model_name = "Random Forest") then
    [ ("model__n_estimators", [PInt 50; PInt 100; PInt 200]);
      ("model__max_depth", [PNone; PInt 10; PInt 20; PInt 30]);
      ("model__min_samples_split", [PInt 2; PInt 5; PInt 10]) ]
  else if bool_decide (best_model_name = "Gradient Boosting") then
    [ ("model__n_estimators", [PInt 50; PInt 100; PInt 200]);
      ("model__learning_rate",
       [PFloat (1 # 100); PFloat (1 # 10); PFloat (2 # 10)]);
      ("model__max_depth", [PInt 3; PInt 5; PInt 7]) ]
  else if bool_decide (best_model_name = "Decision Tree") then
    [ ("model__max_depth", [PNone; PInt 10; PInt 20; PInt 30]);
      ("model__min_samples_split", [PInt 2; PInt 5; PInt 10]);
      ("model__min_samples_leaf", [PInt 1; PInt 2; PInt 4]) ]
  else [].

(** What the grid search reports. *)
Record search_result : Type := mk_search {
  best_params_ : string;        (* as printed *)
  cv_score : float;             (* -grid_search.best_score_ *)
  tuned_rmse : float;
  tuned_r2 : float;
}.

(** The pipeline in [best_model]: the one of [results], or the tuned one. *)
Inductive model : Type :=
| Evaluated (name : string)
| Tuned (name : string).

Record model_info : Type := mk_info {
  model_name : string;
  info_numerical_features : list string;
  info_categorical_features : list string;
  info_target : string;
  metrics_rmse : float;
  metrics_r2 : float;
}.

Inductive event : Type :=
| Printed (line : string)
| Savefig (file : string)
| PickledModel (file : string) (m : model)
| PickledInfo (file : string) (info : model_info).

Inductive exn : Type :=
| NameError (name : string)
| ValueError
| OtherError (class : string).  (* any other exception, by its class *)

(** The global names the cells bind; [None] is a name not bound yet. *)
Record globals : Type := mk_globals {
  best_model_name : string;
  best_model : model;
  rmse : option float;
  r2 : option float;
}.

Definition nl : string := String (ascii_of_nat 10) "".

Section Cells.

Variable rmse_of : string → float.
Variable grid_search
  : string → list (string * list param) → search_result + exn.
Variable comparison_chart : option exn.
Variable draw : string → model → option exn.
Variable fmt2 : float → string.
Variable numerical_features categorical_features : list string.

Definition target : string := "Average delay of all trains at arrival".

(** One statement after another: the second runs if the first did not
    raise. *)
Definition and_then {A B} (m : (A + exn) * list event)
           (k : A → (B + exn) * list event) : (B + exn) * list event :=
  match m.1 with
  | inl a => let r := k a in (r.1, m.2 ++ r.2)
  | inr e => (inr e, m.2)
  end.

(** A chart is drawn and saved, or the drawing raises. *)
Definition savefig (file : string) (drawn : option exn)
  : (unit + exn) * list event :=
  match drawn with
  | None => (inl tt, [Savefig file])
  | Some e => (inr e, [])
  end.

(** Cell 8b89d2e7: the comparison chart and the choice. *)
Definition choose_cell : (globals + exn) * list event :=
  and_then (savefig "model_comparison.png" comparison_chart) (λ _,
    match ModelSelection.best_model_name rmse_of with
    | Some name =>
        (inl (mk_globals name (Evaluated name) None None),
         [Printed (nl +:+ "Best model: " +:+ name +:+ " with RMSE: "
                   +:+ fmt2 (rmse_of name))])
    | None => (inr ValueError, [])
    end).

(** Cell 012e92b8: the grid search, for a model that has a grid. *)
Definition tuning_cell (g : globals) : (globals + exn) * list event :=
  let grid := param_grid (best_model_name g) in
  match grid with
  | _ :: _ =>
      match grid_search (best_model_name g) grid with
      | inl found =>
          (inl (mk_globals (best_model_name g) (Tuned (best_model_name g))
                           (Some (tuned_rmse found)) (Some (tuned_r2 found))),
           [Printed (nl +:+ "Fine-tuning the best model...");
            Printed ("Best parameters: " +:+ best_params_ found);
            Printed ("Best cross-validation score: "
                     +:+ fmt2 (cv_score found));
            Printed ("Tuned model - RMSE: " +:+ fmt2 (tuned_rmse found)
                     +:+ ", R²: " +:+ fmt2 (tuned_r2 found))])
      | inr e =>
          (inr e, [Printed (nl +:+ "Fine-tuning the best model...")])
      end
  | [] =>
      (inl g,
       [Printed (nl +:+ "Fine-tuning the best model...");
        Printed "Skipping hyperparameter tuning for Linear Regression."])
  end.

(** Cells 78b509ec and dfc3bf9a: the two charts. *)
Definition charts_cells (g : globals) : (unit + exn) * list event :=
  and_then
    (if bool_decide (best_model_name g
                     ∈ ["Random Forest"; "Gradient Boosting"; "Decision Tree"])
     then savefig "feature_importance.png"
                  (draw "feature_importance.png" (best_model g))
     else (inl tt, []))
    (λ _, savefig "actual_vs_predicted.png"
                  (draw "actual_vs_predicted.png" (best_model g))).

(** Cell 4aafa29c: the model is pickled; then [model_info] is built, which
    reads the names [rmse] and [r2], and pickled. *)
Definition save_cell (g : globals) : (unit + exn) * list event :=
  let before :=
    [Printed (nl +:+ "Saving the best model...");
     PickledModel "tardis_model.pkl" (best_model g)] in
  match rmse g with
  | None => (inr (NameError "rmse"), before)
  | Some the_rmse =>
      match r2 g with
      | None => (inr (NameError "r2"), before)
      | Some the_r2 =>
          (inl tt,
           before
           ++ [PickledInfo "model_info.pkl"
                 (mk_info (best_model_name g) numerical_features
                          categorical_features target the_rmse the_r2);
               Printed ("Best model (" +:+ best_model_name g
                        +:+ ") saved to 'tardis_model.pkl'");
               Printed "Model information saved to 'model_info.pkl'";
               Printed (nl +:+ "Model training complete!")])
      end
  end.

(** The cells in sequence. *)
Definition choose_tune_save : (unit + exn) * list event :=
  and_then choose_cell (λ g,
  and_then (tuning_cell g) (λ g,
  and_then (charts_cells g) (λ _,
  save_cell g))).

End Cells.

(** Scores and a search to run the cells on an example: Random Forest has
    the least RMSE, the search finds a result, every chart is drawn. *)
Definition example_rmse_of (name : string) : float :=
  if bool_decide (name = "Random Forest") then Fin 3 else Fin 5.

Definition example_grid_search (name : string)
           (grid : list (string * list param)) : search_result + exn :=
  inl (mk_search "{}" (Fin 3) (Fin (5 # 2)) (Fin (9 # 10))).

End ModelNotebook.

(** ** The delay categories: [pd.cut] *)
Module DelayCategory.
Import Float.

(** [bins.searchsorted(x, side="left")] on increasing [bins]: the number of
    edges under [x]; NaN sorts after every edge. *)
Definition searchsorted_left (bins : list float) (x : float) : nat :=
  if isna x then length bins
  else length (filter (λ b, ltb b x = true) bins).

(** [pd.cut(x, bins, labels)] for one value, with the defaults
    [right=True] and [include_lowest=False]: the label of the interval
    (edge, next edge] that holds the value, and NaN (here [None]) for a
    missing value and for a value in none of the intervals. *)
Definition cut (bins : list float) (labels : list string) (x : float)
  : option string :=
  let ids := searchsorted_left bins x in
  if isna x || (ids =? length bins)%nat || (ids =? 0)%nat then None
  else labels !! (ids - 1)%nat.

(** [bins=[-float("inf"), 5, 15, 30, float("inf")]] and the labels *)
Definition delay_bins : list float :=
  [NegInf; Fin 5; Fin 15; Fin 30; PosInf].

Definition delay_labels : list string :=
  ["Minimal"; "Moderate"; "Significant"; "Severe"].

(** An entry of [df["Delay_Category"]], from the arrival delay of the row. *)
Definition Delay_Category (x : float) : option string :=
  cut delay_bins delay_labels x.

(** An entry of [df["Is_Significantly_Delayed"]], from the arrival delay of
    the row: [(x > 15).astype(int)]. *)
Definition Is_Significantly_Delayed (x : float) : Z :=
  if gtb x (of_Z 15) then 1 else 0.

End DelayCategory.

(** ** Frames the sanitizer has nothing to do on *)
Module SanitizerSettled.
Import Float Frame Sanitizer.

(** Every declared column of the frame holds numbers the sanitizer would
    not change. *)
Definition settled (df : frame) : Prop :=
  ∀ col s, col ∈ numeric_columns → columns df !! col = Some s →
    ∃ v, s = Float64 v ∧ Forall (λ x, sanitize_value col x = x) v.

End SanitizerSettled.

(** ** Whole columns under the fuzzy corrector *)
Module FuzzyColumns.
Import Fuzzy.

Section Corrector.

Variable scorer : string → string → N.

(** An entry is a name whose best score in the list is under the
    threshold: the names the corrector leaves for lack of a match. *)
Definition left_for_lack_of_match (top_list : list string) (threshold : N)
           (x : option string) : bool :=
  match x ≫= (λ name, extractOne scorer name top_list) with
  | Some (_, score) => (score <? threshold)%N
  | None => false
  end.

End Corrector.

End FuzzyColumns.

(** ** Routes

    The last cell names each row's route: the departure station, [" to "],
    the arrival station.  Adding text to NaN gives NaN. *)
Module Routes.
Import Normalizer.

(** An entry as the normalizer leaves it: missing, or ASCII text that the
    normalizer returns as it is. *)
Definition normalized (x : option string) : Prop :=
  normalize_station_name x = x ∧ ∀ s, x = Some s → ascii_text s.

Definition add (x y : option string) : option string :=
  match x, y with
  | Some a, Some b => Some (a +:+ b)
  | _, _ => None
  end.

(** [df["Departure station"] + " to " + df["Arrival station"]], one row. *)
Definition Route (departure arrival : option string) : option string :=
  add (add departure (Some " to ")) arrival.

End Routes.

(** ** Filling the categorical columns

    [df[col] = df[col].fillna(df[col].mode()[0])] on the entries of one text
    column.  [mode] gives the values that occur most often, NaN not
    counted, each once and in sorted order (text is ordered character by
    character); [[0]] is the entry labelled 0, a KeyError when the series
    is empty. *)
Module CategoricalFill.

Inductive exn : Type :=
| KeyError (key : Z).

Definition str_le (a b : string) : Prop := String.leb a b = true.

#[global] Instance str_le_dec : RelDecision str_le :=
  λ a b, decide (String.leb a b = true).

(** How often a value occurs in the column. *)
Definition value_count (col : list (option string)) (v : string) : nat :=
  length (filter (λ x, x = Some v) col).

Definition dropna (col : list (option string)) : list string := omap id col.

Definition mode (col : list (option string)) : list string :=
  let values := remove_dups (dropna col) in
  let top := max_list (value_count col <$> values) in
  merge_sort str_le (filter (λ v, value_count col v = top) values).

Definition fillna (value : string) (col : list (option string))
  : list (option string) :=
  (λ x, match x with Some _ => x | None => Some value end) <$> col.

Definition fill_most_common (col : list (option string))
  : list (option string) + exn :=
  match mode col !! 0%nat with
  | Some value => inl (fillna value col)
  | None => inr (KeyError 0)
  end.

(** A column to run the fill on: two values as common as each other, and
    two entries missing. *)
Definition example_services : list (option string) :=
  [Some "TGV"; None; Some "Intercites"; Some "TGV"; Some "Intercites"; None].

End CategoricalFill.

(** * Verification *)

(** ** Date repair *)
Module DateRepairFacts.
Import Re DateRepair.

Example date_repair_dot : date_repair "2023.04" = "2023-04".
Proof. reflexivity. Qed.

Example date_repair_slash_twice :
  date_repair "2023/04 2024x05" = "2023-04 2024-05".
Proof. reflexivity. Qed.

Example date_repair_seven_digits : date_repair "2023004" = "2023-04".
Proof. reflexivity. Qed.

Lemma date_repair_hyphenated_unchanged : date_repair "2023-04" = "2023-04".
Proof. reflexivity. Qed.

(** A match of a class sequence consumes one character per class. *)
Lemma match_classes_length p s m rest :
  match_classes p s = Some (m, rest) →
  String.length s = (length p + String.length rest)%nat.
Proof.
  revert s m rest. induction p as [|k p IH]; intros s m rest H; simpl in *.
  - by inversion H.
  - destruct s as [|c s']; [done|].
    destruct (class_matches k c); [|done].
    destruct (match_classes p s') as [[m' r']|] eqn:E; [|done].
    inversion H; subst. simpl. by rewrite (IH _ _ _ E).
Qed.

(** A text of fewer than seven characters is never touched: the detection
    pattern consumes seven. *)
Lemma date_repair_short (x : string) :
  (String.length x < 7)%nat → date_repair x = x.
Proof.
  intros Hlen. unfold date_repair, re_match.
  destruct (match_classes detect_pattern x) as [[m rest]|] eqn:E; [|done].
  apply match_classes_length in E. simpl in E. lia.
Qed.

(** X1: what the repair does repair: a seven-character token, four digits, one
    character that is not a hyphen, two digits.  The character in the
    middle is replaced by a hyphen, also when it is a digit. *)
Theorem date_repair_separator y1 y2 y3 y4 sep m1 m2 :
  forallb is_digit [y1; y2; y3; y4; m1; m2] = true →
  sep ≠ "-"%char →
  date_repair
    (String y1 (String y2 (String y3 (String y4
       (String sep (String m1 (String m2 "")))))))
  = String y1 (String y2 (String y3 (String y4
       (String "-" (String m1 (String m2 "")))))).
Proof.
  intros Hd Hsep. simpl in Hd.
  apply andb_true_iff in Hd as [H1 Hd]. apply andb_true_iff in Hd as [H2 Hd].
  apply andb_true_iff in Hd as [H3 Hd]. apply andb_true_iff in Hd as [H4 Hd].
  apply andb_true_iff in Hd as [H5 Hd]. apply andb_true_iff in Hd as [H6 _].
  apply Ascii.eqb_neq in Hsep.
  unfold date_repair, re_match, re_sub, detect_pattern, repair_pattern.
  repeat (progress (simpl; rewrite ?H1, ?H2, ?H3, ?H4, ?H5, ?H6, ?Hsep)).
  reflexivity.
Qed.

Lemma date_repair_separator_witness :
  date_repair "2023/04" = "2023-04".
Proof.
  apply (date_repair_separator "2" "0" "2" "3" "/" "0" "4");
    [reflexivity | discriminate].
Defined.

(** C1 (the code at the claim's first input): the date repair leaves the
    six-character token "202304" as it is and does not produce "2023-04";
    the detection pattern asks for a seventh character between year and
    month. *)
Theorem date_repair_202304 :
  date_repair "202304" = "202304" ∧ date_repair "202304" ≠ "2023-04".
Proof. split; [reflexivity | discriminate]. Qed.

End DateRepairFacts.

(** ** Effects *)
Module PythonFacts.
Import Python.

Lemma bind_ok {A B} (m : Py A) (f : A → Py B) a :
  m.1 = Ok a → py_bind m f = ((f a).1, m.2 ++ (f a).2).
Proof. intros H. unfold py_bind. by rewrite H. Qed.

Lemma bind_raise {A B} (m : Py A) (f : A → Py B) e :
  m.1 = Raise e → py_bind m f = (Raise e, m.2).
Proof. intros H. unfold py_bind. by rewrite H. Qed.

Lemma bind_ret {A B} (a : A) (f : A → Py B) : py_bind (py_ret a) f = f a.
Proof. unfold py_bind, py_ret. simpl. by destruct (f a). Qed.

(** A pure [apply] is [map]. *)
Lemma apply_pure {A B} (f : A → Py B) (g : A → B) l :
  (∀ x, x ∈ l → (f x).1 = Ok (g x)) → (apply f l).1 = Ok (g <$> l).
Proof.
  induction l as [|x l IH]; intros H; [done|]. simpl.
  rewrite (bind_ok _ _ (g x)) by (apply H; left). simpl.
  rewrite (bind_ok _ _ (g <$> l)); [done|].
  apply IH. intros y Hy. apply H. by right.
Qed.

Lemma any_false_loc_assign {A} mask (v : A) l :
  any mask = false → Frame.loc_assign mask v l = l.
Proof.
  revert l. induction mask as [|b mask IH]; intros l H; [by destruct l|].
  destruct l as [|x l]; [done|]. unfold any in *. simpl in *.
  apply orb_false_iff in H as [-> H]. simpl. f_equal. by apply IH.
Qed.

(** Masked assignment with a mask computed from the values is a map. *)
Lemma loc_assign_map {A} (p : A → bool) (v : A) l :
  Frame.loc_assign (p <$> l) v l = (λ x, if p x then v else x) <$> l.
Proof. induction l as [|x l IH]; [done|]. simpl. f_equal. apply IH. Qed.

End PythonFacts.

(** ** The fuzzy corrector *)
Module FuzzyFacts.
Import Python PythonFacts Fuzzy.

Section Corrector.

Variable scorer : string → string → N.

Lemma extractWithoutOrder_all query choices :
  extractWithoutOrder scorer query choices 0
  = (λ choice, (choice, scorer query choice)) <$> choices.
Proof.
  unfold extractWithoutOrder.
  induction choices as [|c cs IH]; [done|].
  rewrite fmap_cons, filter_cons_True by (simpl; lia). by rewrite IH.
Qed.

Section Max.
Context {A : Type} (key : A → N).

Lemma max_from_elem best l : max_from key best l ∈ best :: l.
Proof.
  revert best. induction l as [|x l IH]; intros best; simpl; [left|].
  specialize (IH (if (key best <? key x)%N then x else best)).
  apply elem_of_cons in IH as [->|IH].
  - destruct (key best <? key x)%N; [right; left | left].
  - by do 2 right.
Qed.

Lemma max_from_ge_best best l : (key best ≤ key (max_from key best l))%N.
Proof.
  revert best. induction l as [|x l IH]; intros best; simpl; [lia|].
  specialize (IH (if (key best <? key x)%N then x else best)).
  destruct (N.ltb_spec (key best) (key x)); lia.
Qed.

Lemma max_from_upper best l x :
  x ∈ best :: l → (key x ≤ key (max_from key best l))%N.
Proof.
  revert best. induction l as [|y l IH]; intros best Hx; simpl.
  - apply list_elem_of_singleton in Hx as ->. lia.
  - pose proof (max_from_ge_best (if (key best <? key y)%N then y else best) l) as Hb.
    apply elem_of_cons in Hx as [->|Hx].
    + destruct (N.ltb_spec (key best) (key y)); lia.
    + apply elem_of_cons in Hx as [->|Hx].
      * destruct (N.ltb_spec (key best) (key y)); lia.
      * apply IH. by right.
Qed.

(** The current best stays when nothing later beats it. *)
Lemma max_from_stays best l :
  (∀ y, y ∈ l → (key y ≤ key best)%N) → max_from key best l = best.
Proof.
  revert best. induction l as [|x l IH]; intros best H; simpl; [done|].
  destruct (N.ltb_spec (key best) (key x)) as [Hlt|Hge].
  - specialize (H x ltac:(left)). lia.
  - apply IH. intros y Hy. apply H. by right.
Qed.

(** The first of the maximal items wins. *)
Lemma max_from_first best pre x post :
  (key best < key x)%N →
  (∀ y, y ∈ pre → (key y < key x)%N) →
  (∀ y, y ∈ post → (key y ≤ key x)%N) →
  max_from key best (pre ++ x :: post) = x.
Proof.
  revert best. induction pre as [|p pre IH]; intros best Hb Hpre Hpost; simpl.
  - apply N.ltb_lt in Hb. rewrite Hb. by apply max_from_stays.
  - apply IH; [|intros y Hy; apply Hpre; by right|done].
    destruct (key best <? key p)%N; [apply Hpre; left|done].
Qed.

Lemma py_max_first pre x post :
  (∀ y, y ∈ pre → (key y < key x)%N) →
  (∀ y, y ∈ post → (key y ≤ key x)%N) →
  py_max key (pre ++ x :: post) = Some x.
Proof.
  intros Hpre Hpost. destruct pre as [|p pre]; simpl.
  - f_equal. by apply max_from_stays.
  - f_equal. apply max_from_first; [apply Hpre; left| |done].
    intros y Hy. apply Hpre. by right.
Qed.

End Max.

(** What [extractOne] returns on a list that is not empty: an element of
    the list, with its score, which no other element exceeds. *)
Lemma extractOne_best query c cs :
  ∃ matched score,
    extractOne scorer query (c :: cs) = Some (matched, score)
    ∧ matched ∈ c :: cs
    ∧ score = scorer query matched
    ∧ ∀ choice, choice ∈ c :: cs → (scorer query choice ≤ score)%N.
Proof.
  unfold extractOne. rewrite extractWithoutOrder_all, fmap_cons.
  set (f := λ choice, (choice, scorer query choice)).
  unfold py_max.
  set (r := max_from snd (f c) (f <$> cs)).
  exists r.1, r.2. split; [f_equal; apply surjective_pairing|].
  assert (Hin : r ∈ f <$> (c :: cs)) by apply (max_from_elem snd).
  apply list_elem_of_fmap in Hin as (m & Hr & Hm).
  rewrite Hr. simpl. split; [done|]. split; [done|].
  intros choice Hc.
  change (scorer query choice) with ((f choice).2).
  change (scorer query m) with ((f m).2). rewrite <- Hr.
  apply (max_from_upper snd (f c) (f <$> cs)).
  change (f c :: (f <$> cs)) with (f <$> (c :: cs)).
  by apply list_elem_of_fmap_2.
Qed.

Lemma extractOne_empty query : extractOne scorer query [] = None.
Proof. reflexivity. Qed.

(** The corrector, once [extractOne] has answered. *)
Lemma correct_after_extract name top_list threshold matched score :
  extractOne scorer name top_list = Some (matched, score) →
  correct_station_from_top scorer (Some name) top_list threshold
  = if (score <? threshold)%N
    then (Ok (Some name), [correcting_line name matched score threshold])
    else (Ok (Some matched), []).
Proof.
  intros H. unfold correct_station_from_top. rewrite H.
  destruct (N.ltb_spec score threshold) as [Hlt|Hge].
  - apply N.leb_gt in Hlt. by rewrite Hlt.
  - apply N.leb_le in Hge. by rewrite Hge.
Qed.

(** C3: a missing name is returned as it is; for a name and a list that is
    not empty, the corrector finds the best match of the list (an element
    whose score no other element exceeds) and returns that match when the
    score is at least 75 and the name itself when the score is under 75. *)
Theorem correct_station_from_top_threshold :
  (∀ top_list threshold,
      correct_station_from_top scorer None top_list threshold = (Ok None, []))
  ∧ ∀ name c cs, ∃ matched score,
      extractOne scorer name (c :: cs) = Some (matched, score)
      ∧ matched ∈ c :: cs
      ∧ score = scorer name matched
      ∧ (∀ choice, choice ∈ c :: cs → (scorer name choice ≤ score)%N)
      ∧ ((75 ≤ score)%N →
         (correct_station_from_top scorer (Some name) (c :: cs) default_threshold).1
         = Ok (Some matched))
      ∧ ((score < 75)%N →
         (correct_station_from_top scorer (Some name) (c :: cs) default_threshold).1
         = Ok (Some name)).
Proof.
  split; [done|]. intros name c cs.
  destruct (extractOne_best name c cs) as (matched & score & He & Hin & Hs & Hmax).
  exists matched, score. repeat split; try done.
  - intros H. rewrite (correct_after_extract _ _ _ _ _ He).
    unfold default_threshold.
    destruct (N.ltb_spec score 75); [lia|done].
  - intros H. rewrite (correct_after_extract _ _ _ _ _ He).
    unfold default_threshold.
    destruct (N.ltb_spec score 75); [done|lia].
Qed.

(** C8 (what the code does): for a name and a list that is not empty, the
    corrector prints its line exactly when the score is under the threshold,
    and then it returns the name unchanged; when the score reaches the
    threshold it returns the match and prints nothing. *)
Theorem correcting_line_printed_when_left_unchanged name c cs threshold :
  ∃ matched score,
    extractOne scorer name (c :: cs) = Some (matched, score)
    ∧ ((score < threshold)%N →
       correct_station_from_top scorer (Some name) (c :: cs) threshold
       = (Ok (Some name), [correcting_line name matched score threshold]))
    ∧ ((threshold ≤ score)%N →
       correct_station_from_top scorer (Some name) (c :: cs) threshold
       = (Ok (Some matched), [])).
Proof.
  destruct (extractOne_best name c cs) as (matched & score & He & _).
  exists matched, score. split; [done|].
  rewrite (correct_after_extract _ _ _ _ _ He).
  split; intros H; destruct (N.ltb_spec score threshold); done || lia.
Qed.

(** The entries of a corrected column, one by one. *)
Lemma correct_column_closed column top_list :
  match (correct_column scorer column top_list).1 with
  | Ok out =>
      Forall2 (λ x y, y = x ∨ ∃ m, y = Some m ∧ m ∈ top_list) column out
  | Raise e => e = TypeError ∧ top_list = []
  end.
Proof.
  unfold correct_column.
  induction column as [|x column IH]; simpl; [constructor|].
  set (f := λ x, correct_station_from_top scorer x top_list default_threshold) in *.
  assert (Hx : match (f x).1 with
               | Ok v => v = x ∨ ∃ m, v = Some m ∧ m ∈ top_list
               | Raise e => e = TypeError ∧ top_list = []
               end).
  { unfold f. destruct x as [name|]; [|by left].
    destruct top_list as [|c cs]; [done|].
    destruct (extractOne_best name c cs) as (matched & score & He & Hin & _).
    rewrite (correct_after_extract _ _ _ _ _ He).
    destruct (score <? default_threshold)%N; simpl; [by left|].
    right. by exists matched. }
  destruct (f x).1 as [v|e] eqn:Ex.
  - rewrite (bind_ok _ _ v Ex). simpl.
    destruct (apply f column).1 as [vs|e] eqn:El.
    + rewrite (bind_ok _ _ vs El). simpl. by constructor.
    + by rewrite (bind_raise _ _ e El).
  - by rewrite (bind_raise _ _ e Ex).
Qed.

(** C10: whatever the corrector returns is the name it was given or an
    element of the reference list, for one name and for a whole column; it
    returns nothing only when given a name and an empty list, where it
    raises. *)
Theorem correct_station_from_top_closed :
  (∀ name top_list threshold,
      match (correct_station_from_top scorer name top_list threshold).1 with
      | Ok v => v = name ∨ ∃ m, v = Some m ∧ m ∈ top_list
      | Raise e => e = TypeError ∧ top_list = [] ∧ is_Some name
      end)
  ∧ (∀ column top_list,
      match (correct_column scorer column top_list).1 with
      | Ok out =>
          Forall2 (λ x y, y = x ∨ ∃ m, y = Some m ∧ m ∈ top_list) column out
      | Raise e => e = TypeError ∧ top_list = []
      end).
Proof.
  split; [|apply correct_column_closed].
  intros [name|] top_list threshold; [|by left].
  destruct top_list as [|c cs]; [by eauto|].
  destruct (extractOne_best name c cs) as (matched & score & He & Hin & _).
  rewrite (correct_after_extract _ _ _ _ _ He).
  destruct (score <? threshold)%N; simpl; [by left|].
  right. by exists matched.
Qed.

(** C6, amended: a name of the reference list that no earlier entry of the
    list matches as well as it matches itself, and no later entry matches
    better, is returned unchanged. *)
Theorem correct_first_best_canonical_unchanged pre name post :
  (∀ c, c ∈ pre → (scorer name c < scorer name name)%N) →
  (∀ c, c ∈ post → (scorer name c ≤ scorer name name)%N) →
  (correct_station_from_top scorer (Some name) (pre ++ name :: post)
                            default_threshold).1
  = Ok (Some name).
Proof.
  intros Hpre Hpost.
  assert (He : extractOne scorer name (pre ++ name :: post)
               = Some (name, scorer name name)).
  { unfold extractOne. rewrite extractWithoutOrder_all, fmap_app, fmap_cons.
    apply py_max_first.
    - intros y Hy. apply list_elem_of_fmap in Hy as (c & -> & Hc). simpl. auto.
    - intros y Hy. apply list_elem_of_fmap in Hy as (c & -> & Hc). simpl. auto. }
  rewrite (correct_after_extract _ _ _ _ _ He).
  by destruct (_ <? _)%N.
Qed.

End Corrector.

Lemma correct_first_best_canonical_unchanged_witness :
  (correct_station_from_top same_text_scorer (Some "Paris Lyon")
     (["Lyon Part Dieu"] ++ "Paris Lyon" :: ["Marseille St Charles"])
     default_threshold).1
  = Ok (Some "Paris Lyon").
Proof.
  apply (correct_first_best_canonical_unchanged same_text_scorer).
  - intros c Hc. apply list_elem_of_singleton in Hc as ->. vm_compute. reflexivity.
  - intros c Hc. apply list_elem_of_singleton in Hc as ->. vm_compute. discriminate.
Defined.

(** C6, as stated, fails: in the list [Paris-Lyon; Paris Lyon] both entries
    are canonical names.  The package's scorer compares texts after putting
    them in lower case and replacing punctuation by spaces, so it rates
    "Paris-Lyon" against "Paris Lyon" 100, as high as "Paris Lyon" against
    itself.  With any scorer that does so the corrector turns the canonical
    name "Paris Lyon" into the earlier entry "Paris-Lyon"; hence it is not
    true of every scorer that a name of the list is returned unchanged. *)
Lemma canonical_name_replaced_on_tie :
  (¬ ∃ scorer : string → string → N,
       scorer "Paris Lyon" "Paris-Lyon" = 100%N
       ∧ scorer "Paris Lyon" "Paris Lyon" = 100%N
       ∧ (correct_station_from_top scorer (Some "Paris Lyon")
            ["Paris-Lyon"; "Paris Lyon"] default_threshold).1
         = Ok (Some "Paris Lyon"))
  ∧ ¬ ∀ (scorer : string → string → N) name top_list,
        name ∈ top_list →
        (correct_station_from_top scorer (Some name) top_list
                                  default_threshold).1
        = Ok (Some name).
Proof.
  assert (Hrun : ∀ scorer : string → string → N,
             scorer "Paris Lyon" "Paris-Lyon" = 100%N →
             scorer "Paris Lyon" "Paris Lyon" = 100%N →
             (correct_station_from_top scorer (Some "Paris Lyon")
                ["Paris-Lyon"; "Paris Lyon"] default_threshold).1
             ≠ Ok (Some "Paris Lyon")).
  { intros scorer H1 H2 H.
    unfold correct_station_from_top, extractOne, extractWithoutOrder in H.
    simpl in H. rewrite H1, H2 in H.
    rewrite !filter_cons_True in H by (simpl; lia).
    simpl in H. discriminate H. }
  split.
  - intros (scorer & H1 & H2 & H). by apply (Hrun scorer).
  - intros H. apply (Hrun (λ _ _, 100%N)); [done..|].
    apply H. right. left.
Qed.

(** The same run, said positively: the earlier of two entries with the
    same score is returned, and nothing is printed. *)
Lemma tie_goes_to_the_earlier_entry (scorer : string → string → N) :
  scorer "Paris Lyon" "Paris-Lyon" = 100%N →
  scorer "Paris Lyon" "Paris Lyon" = 100%N →
  correct_station_from_top scorer (Some "Paris Lyon")
    ["Paris-Lyon"; "Paris Lyon"] default_threshold
  = (Ok (Some "Paris-Lyon"), []).
Proof.
  intros H1 H2.
  unfold correct_station_from_top, extractOne, extractWithoutOrder.
  simpl. rewrite H1, H2.
  rewrite !filter_cons_True by (simpl; lia). reflexivity.
Qed.

(** Runs with the stand-in scorer. *)
Example correct_unmatched_name :
  correct_station_from_top same_text_scorer (Some "Zzz") ["Paris Lyon"]
    default_threshold
  = (Ok (Some "Zzz"),
     ["Correcting 'Zzz' to 'Paris Lyon' - Score: 0 (Threshold: 75)"]).
Proof. vm_compute. reflexivity. Qed.

Example correct_listed_name :
  correct_station_from_top same_text_scorer (Some "Paris Lyon")
    ["Lyon Part Dieu"; "Paris Lyon"] default_threshold
  = (Ok (Some "Paris Lyon"), []).
Proof. vm_compute. reflexivity. Qed.

Example correct_missing_name :
  correct_station_from_top same_text_scorer None [] default_threshold
  = (Ok None, []).
Proof. reflexivity. Qed.

Example correct_with_empty_list :
  correct_station_from_top same_text_scorer (Some "Paris Lyon") []
    default_threshold
  = (Raise TypeError, []).
Proof. reflexivity. Qed.

Example correct_column_run :
  (correct_column same_text_scorer [Some "Paris Lyon"; None; Some "Zzz"]
     ["Paris Lyon"]).1
  = Ok [Some "Paris Lyon"; None; Some "Zzz"].
Proof. vm_compute. reflexivity. Qed.

End FuzzyFacts.

(** ** The numeric sanitizer *)
Module SanitizerFacts.
Import Python PythonFacts Float Frame Sanitizer.

(** One masked overwrite of the loop body, as a map over the values. *)
Lemma masked_overwrite (p : float → bool) (c : float) (line : string) v :
  (if any (p <$> v)
   then do_ print line; py_ret (loc_assign (p <$> v) c v)
   else py_ret v).1
  = Ok ((λ x, if p x then c else x) <$> v).
Proof.
  destruct (any (p <$> v)) eqn:E; simpl.
  - by rewrite loc_assign_map.
  - by rewrite <- loc_assign_map, any_false_loc_assign.
Qed.

Section Cleanup.

Variable str_to_float : string → option float.

(** The loop body computes, value by value, what the specification says. *)
Lemma clean_numeric_column_values col s :
  (clean_numeric_column str_to_float col s).1
  = Ok (sanitize_value col <$> to_numeric str_to_float s).
Proof.
  unfold clean_numeric_column.
  set (v := to_numeric str_to_float s).
  erewrite bind_ok by apply masked_overwrite. simpl.
  set (v1 := (λ x, if ltb x (Fin 0) then Fin 0 else x) <$> v).
  assert (Hv1 : v1 = zero_negative <$> v) by done.
  assert (H2 : ∀ w,
    (if contains "Average" col
     then if any ((λ x, gtb x (Fin 500)) <$> w)
          then do_ print ("Found " +:+ pretty (count_true ((λ x, gtb x (Fin 500)) <$> w))
                          +:+ " outliers in " +:+ col +:+ " (values > 500.0)");
               py_ret (loc_assign ((λ x, gtb x (Fin 500)) <$> w) NaN w)
          else py_ret w
     else py_ret w).1 = Ok (null_large_average col <$> w)).
  { intros w. unfold null_large_average.
    destruct (contains "Average" col); simpl.
    - apply (masked_overwrite (λ x, gtb x (Fin 500)) NaN).
    - by rewrite list_fmap_id. }
  erewrite bind_ok by apply H2. simpl.
  set (v2 := null_large_average col <$> v1).
  assert (Hv : sanitize_value col <$> v = clamp_percentage col <$> v2).
  { unfold v2. rewrite Hv1, <- !list_fmap_compose. done. }
  rewrite Hv. clearbody v2. clear.
  unfold clamp_percentage.
  destruct (contains "Pct" col); [|by rewrite list_fmap_id].
  erewrite bind_ok
    by apply (masked_overwrite (λ x, gtb x (Fin 100)) (Fin 100)).
  simpl.
  rewrite (masked_overwrite (λ x, ltb x (Fin 0)) (Fin 0)).
  by rewrite <- list_fmap_compose.
Qed.

Local Abbreviation cleaned := (Sanitizer.cleaned str_to_float).
Local Abbreviation cleaned_step := (Sanitizer.cleaned_step str_to_float).

Lemma clean_step_value df col :
  (clean_step str_to_float df col).1 = Ok (cleaned_step df col).
Proof.
  unfold clean_step, cleaned_step. destruct (columns df !! col) as [s|]; [|done].
  by rewrite (bind_ok _ _ _ (clean_numeric_column_values col s)).
Qed.

Lemma for_each_value {A S} (body : S → A → Py S) (g : S → A → S) l st :
  (∀ st x, (body st x).1 = Ok (g st x)) →
  (for_each body st l).1 = Ok (foldl g st l).
Proof.
  intros H. revert st. induction l as [|x l IH]; intros st; [done|]. simpl.
  rewrite (bind_ok _ _ _ (H st x)). simpl. apply IH.
Qed.

Lemma cleaned_step_lookup df c col :
  columns (cleaned_step df c) !! col
  = if decide (col = c) then cleaned c <$> columns df !! c
    else columns df !! col.
Proof.
  unfold cleaned_step. destruct (columns df !! c) as [s|] eqn:E; simpl.
  - destruct (decide (col = c)) as [->|Hne].
    + by rewrite lookup_insert_eq.
    + by rewrite lookup_insert_ne.
  - destruct (decide (col = c)) as [->|Hne]; [by rewrite E|done].
Qed.

Lemma cleaned_step_index df c : index (cleaned_step df c) = index df.
Proof. unfold cleaned_step. by destruct (columns df !! c). Qed.

Lemma cleaned_steps cols df :
  NoDup cols →
  index (foldl cleaned_step df cols) = index df
  ∧ ∀ col, columns (foldl cleaned_step df cols) !! col
           = if decide (col ∈ cols) then cleaned col <$> columns df !! col
             else columns df !! col.
Proof.
  intros Hnd. revert df.
  induction Hnd as [|c cs Hc Hnd IH]; intros df; simpl.
  - split; [done|]. intros col. destruct (decide (col ∈ [])) as [H|]; [|done].
    by apply elem_of_nil in H.
  - destruct (IH (cleaned_step df c)) as [Hi Hl].
    split; [by rewrite Hi, cleaned_step_index|].
    intros col. rewrite Hl, cleaned_step_lookup.
    destruct (decide (col = c)) as [->|Hne].
    + rewrite decide_False by done. rewrite decide_True by left. done.
    + destruct (decide (col ∈ cs)) as [Hin|Hnin].
      * rewrite decide_True by (by right). done.
      * rewrite decide_False; [done|]. intros [?|?]%elem_of_cons; done.
Qed.

Lemma numeric_columns_NoDup : NoDup numeric_columns.
Proof. by apply (bool_decide_unpack (NoDup numeric_columns)); vm_compute. Qed.

(** The loop never raises, keeps the rows, rewrites every declared column
    that the frame has and leaves the other columns alone. *)
Lemma clean_numeric_columns_value df :
  ∃ df', (clean_numeric_columns str_to_float df).1 = Ok df'
    ∧ index df' = index df
    ∧ ∀ col, columns df' !! col
             = if decide (col ∈ numeric_columns)
               then cleaned col <$> columns df !! col
               else columns df !! col.
Proof.
  exists (foldl cleaned_step df numeric_columns). split.
  - unfold clean_numeric_columns. apply for_each_value, clean_step_value.
  - apply cleaned_steps, numeric_columns_NoDup.
Qed.

(** The name tests of the loop on the declared columns. *)
Lemma name_tests col :
  col ∈ numeric_columns →
  contains "Average" col = bool_decide (col ∈ average_columns)
  ∧ contains "Pct" col = bool_decide (col ∈ percentage_columns).
Proof.
  revert col. apply Forall_forall.
  apply (bool_decide_unpack
           (Forall (λ col,
              contains "Average" col = bool_decide (col ∈ average_columns)
              ∧ contains "Pct" col = bool_decide (col ∈ percentage_columns))
              numeric_columns)).
  vm_compute. reflexivity.
Qed.

(** C4: for each declared numeric column of the frame the sanitizer
    coerces the entries to numbers (a text token that is no number becomes
    missing, a number stays, an integer is the number it is, a time is the
    integer it is held as); then replaces negative values by 0; then, in
    the six columns named Average, makes the values over 500 missing, not
    500; then, in the six columns named Pct, sets the values over 100 to
    100 and those under 0 to 0.  The frame keeps its rows and its other
    columns.  The text tokens are taken to read to numbers under 2^53. *)
Theorem clean_numeric_columns_steps df :
  let numbers := λ s : series,
    match s with
    | Text tokens =>
        (λ x, match x with
              | Some token =>
                  match str_to_float token with Some n => n | None => NaN end
              | None => NaN
              end) <$> tokens
    | Float64 l => l
    | Int64 l => (λ z, Fin (inject_Z z)) <$> l
    | Datetime l =>
        (λ t, match t with
              | Some z => Fin (inject_Z z)
              | None => Fin (inject_Z (- 9223372036854775808))
              end) <$> l
    end in
  let steps := λ (col : string) (x : float),
    let x := if ltb x (Fin 0) then Fin 0 else x in
    let x := if bool_decide (col ∈ average_columns)
             then if gtb x (Fin 500) then NaN else x
             else x in
    if bool_decide (col ∈ percentage_columns)
    then let x := if gtb x (Fin 100) then Fin 100 else x in
         if ltb x (Fin 0) then Fin 0 else x
    else x in
  (∀ col tokens,
     col ∈ numeric_columns → columns df !! col = Some (Text tokens) →
     read_exactly str_to_float tokens) →
  ∃ df',
    (clean_numeric_columns str_to_float df).1 = Ok df'
    ∧ index df' = index df
    ∧ ∀ col,
        columns df' !! col
        = if decide (col ∈ numeric_columns)
          then (λ s, Float64 (steps col <$> numbers s)) <$> columns df !! col
          else columns df !! col.
Proof.
  intros numbers steps _.
  destruct (clean_numeric_columns_value df) as (df' & Hok & Hi & Hl).
  exists df'. split; [done|]. split; [done|].
  intros col. rewrite Hl.
  destruct (decide (col ∈ numeric_columns)) as [Hcol|]; [|done].
  destruct (columns df !! col) as [s|]; [|done].
  cbn [fmap option_fmap option_map]. f_equal.
  unfold Sanitizer.cleaned. f_equal.
  assert (Hn : to_numeric str_to_float s = numbers s).
  { destruct s as [tokens|l|l|l]; simpl; try done.
    - apply list_fmap_ext. intros _ [token|] _; [|done].
      simpl. by destruct (str_to_float token).
    - apply list_fmap_ext. by intros _ [z|] _. }
  rewrite Hn. apply list_fmap_ext. intros _ x _.
  destruct (name_tests col Hcol) as [Ha Hp].
  unfold steps, sanitize_value, clamp_percentage, null_large_average,
    zero_negative. rewrite Ha, Hp.
  by destruct (bool_decide (col ∈ average_columns)).
Qed.

(** Ranges of one sanitized value: by cases on the value and on the
    outcome of the comparisons the code makes. *)
Ltac use_comparisons :=
  repeat (simpl;
          match goal with H : Qle_bool _ _ = _ |- _ => rewrite H end);
  simpl; auto.

Ltac by_comparisons col x :=
  destruct (contains "Pct" col), (contains "Average" col), x as [| |?q|];
  simpl; auto; try discriminate;
  destruct (Qle_bool 0 q) eqn:?, (Qle_bool q 500) eqn:?,
           (Qle_bool q 100) eqn:?;
  use_comparisons; try discriminate.

Lemma sanitize_value_not_negative col x : not_negative (sanitize_value col x).
Proof.
  unfold not_negative, sanitize_value, clamp_percentage, null_large_average,
    zero_negative, gtb.
  by_comparisons col x.
Qed.

Lemma sanitize_value_percentage col x :
  contains "Pct" col = true →
  missing (sanitize_value col x) ∨ in_percentage_range (sanitize_value col x).
Proof.
  unfold missing, in_percentage_range, sanitize_value, clamp_percentage,
    null_large_average, zero_negative, gtb.
  by_comparisons col x.
Qed.

Lemma sanitize_value_average col x :
  contains "Average" col = true →
  ¬ missing (sanitize_value col x) → at_most_500 (sanitize_value col x).
Proof.
  unfold missing, at_most_500, sanitize_value, clamp_percentage,
    null_large_average, zero_negative, gtb.
  by_comparisons col x; intros; try done.
Qed.

(** Sanitizing a sanitized value changes nothing. *)
Lemma sanitize_value_idempotent col x :
  sanitize_value col (sanitize_value col x) = sanitize_value col x.
Proof.
  unfold sanitize_value, clamp_percentage, null_large_average,
    zero_negative, gtb.
  by_comparisons col x.
Qed.

(** C2, amended: after the sanitizer every declared numeric column of the
    frame is a column of numbers in which no value is negative; if its name
    has "Pct" in it every value that is not missing lies in [0,100]; if its
    name has "Average" in it every value that is not missing is at most
    500. *)
Theorem sanitized_columns_in_range df :
  ∃ df',
    (clean_numeric_columns str_to_float df).1 = Ok df'
    ∧ ∀ col s,
        col ∈ numeric_columns → columns df' !! col = Some s →
        ∃ v, s = Float64 v
          ∧ Forall not_negative v
          ∧ (contains "Pct" col = true →
             Forall (λ x, missing x ∨ in_percentage_range x) v)
          ∧ (contains "Average" col = true →
             Forall (λ x, ¬ missing x → at_most_500 x) v).
Proof.
  destruct (clean_numeric_columns_value df) as (df' & Hok & _ & Hl).
  exists df'. split; [done|]. intros col s Hcol Hs.
  rewrite Hl, decide_True in Hs by done.
  destruct (columns df !! col) as [s0|]; [|done]. simpl in Hs.
  injection Hs as <-. eexists. split; [done|].
  repeat split; intros; apply Forall_fmap, Forall_true; intros x; simpl.
  - apply sanitize_value_not_negative.
  - by apply sanitize_value_percentage.
  - by apply sanitize_value_average.
Qed.

End Cleanup.

Example clean_numeric_columns_run :
  match clean_numeric_columns example_str_to_float example_numbers with
  | (Ok df', lines) =>
      columns df' !! "Average journey time"
      = Some (Float64 [Fin 0; NaN; Fin 120])
      ∧ columns df' !! "Pct delay due to infrastructure"
        = Some (Float64 [Fin 100; NaN; Fin (81 # 2)])
      ∧ columns df' !! "Comment" = Some (Text [None; Some "-1"; None])
      ∧ lines
        = ["Found 1 negative values in Average journey time";
           "Found 1 outliers in Average journey time (values > 500.0)";
           "Found 1 values over 100% in Pct delay due to infrastructure"]
  | (Raise _, _) => False
  end.
Proof. vm_compute. repeat split; reflexivity. Qed.

Lemma clean_numeric_columns_steps_witness :
  ∃ df',
    (clean_numeric_columns example_str_to_float example_numbers).1 = Ok df'
    ∧ index df' = [0; 1; 2]%nat
    ∧ columns df' !! "Average journey time"
      = Some (Float64 [Fin 0; NaN; Fin 120])
    ∧ columns df' !! "Pct delay due to infrastructure"
      = Some (Float64 [Fin 100; NaN; Fin (81 # 2)])
    ∧ columns df' !! "Comment" = Some (Text [None; Some "-1"; None]).
Proof.
  destruct (clean_numeric_columns_steps example_str_to_float example_numbers)
    as (df' & Hok & Hi & Hl).
  - intros col tokens _ _ token q _ Hread.
    unfold example_str_to_float in Hread.
    repeat case_bool_decide; try discriminate;
      injection Hread as <-; split; reflexivity.
  - exists df'. split; [exact Hok|]. split; [exact Hi|].
    rewrite !Hl. repeat split; vm_compute; reflexivity.
Defined.

(** C2, as stated, fails: a percentage column with an empty entry still has
    the missing value after the sanitizer, and a missing value does not lie
    in [0,100]. *)
Lemma missing_percentage_not_in_range :
  ¬ ∀ (str_to_float : string → option float) (df df' : frame),
      (clean_numeric_columns str_to_float df).1 = Ok df' →
      ∀ col v,
        col ∈ numeric_columns → contains "Pct" col = true →
        columns df' !! col = Some (Float64 v) →
        Forall in_percentage_range v.
Proof.
  intros H.
  pose (df := mk_frame [0; 1]%nat
                {[ "Pct delay due to external causes"
                   := Float64 [Fin (25 # 2); NaN] ]}).
  destruct (clean_numeric_columns_value (λ _, None) df) as (df' & Hok & _ & Hl).
  specialize (H _ _ _ Hok "Pct delay due to external causes"
                [Fin (25 # 2); NaN]).
  assert (Hin : "Pct delay due to external causes" ∈ numeric_columns)
    by (apply (bool_decide_unpack _); vm_compute; reflexivity).
  specialize (H Hin eq_refl).
  rewrite Hl, decide_True in H by done.
  specialize (H eq_refl).
  apply Forall_cons in H as [_ H]. apply Forall_cons in H as [[H _] _].
  discriminate H.
Qed.

End SanitizerFacts.

(** ** The date cells *)
Module DatesFacts.
Import Python PythonFacts Float Frame DateRepair Dates.

Lemma select_elem {A} (mask : list bool) (l : list A) x :
  x ∈ select mask l → ∃ k, l !! k = Some x ∧ mask !! k = Some true.
Proof.
  revert l. induction mask as [|b mask IH]; intros l H; simpl in H.
  - by apply elem_of_nil in H.
  - destruct l as [|y l]; [by apply elem_of_nil in H|].
    destruct b.
    + apply elem_of_cons in H as [->|H]; [by exists 0%nat|].
      destruct (IH _ H) as (k & ? & ?). by exists (S k).
    + destruct (IH _ H) as (k & ? & ?). by exists (S k).
Qed.

(** In a frame with distinct labels, a row whose mask entry is false is
    gone after [df[mask]]. *)
Lemma select_drops {A} (mask : list bool) (l : list A) k x :
  NoDup l → l !! k = Some x → mask !! k = Some false → x ∉ select mask l.
Proof.
  intros Hnd Hl Hm Hin. apply select_elem in Hin as (k' & Hl' & Hm').
  assert (k = k') as <- by eauto using NoDup_lookup. congruence.
Qed.

Lemma select_subset {A} (mask : list bool) (l : list A) x :
  x ∈ select mask l → x ∈ l.
Proof.
  intros (k & H & _)%select_elem. by eapply list_elem_of_lookup_2.
Qed.

(** [apply] of a function that never raises never raises. *)
Lemma apply_total {A B} (f : A → Py B) l :
  (∀ x, ∃ y, (f x).1 = Ok y) → ∃ ys, (apply f l).1 = Ok ys.
Proof.
  intros H. induction l as [|x l [ys IH]]; [by eexists|].
  destruct (H x) as [y Hy]. exists (y :: ys). simpl.
  rewrite (bind_ok _ _ _ Hy). simpl. by rewrite (bind_ok _ _ _ IH).
Qed.

Lemma apply_values {A B} (f : A → Py B) l ys :
  (apply f l).1 = Ok ys → Forall2 (λ x y, (f x).1 = Ok y) l ys.
Proof.
  revert ys. induction l as [|x l IH]; intros ys H; simpl in H.
  - injection H as <-. constructor.
  - destruct (f x).1 as [y|e] eqn:Ex;
      [rewrite (bind_ok _ _ _ Ex) in H|by rewrite (bind_raise _ _ _ Ex) in H].
    simpl in H.
    destruct (apply f l).1 as [ys'|e] eqn:El;
      [rewrite (bind_ok _ _ _ El) in H|by rewrite (bind_raise _ _ _ El) in H].
    simpl in H. injection H as <-. constructor; [done|]. by apply IH.
Qed.

Lemma select_all {A} (mask : list bool) (l : list A) :
  Forall (λ b, b = true) mask → length mask = length l → select mask l = l.
Proof.
  revert l. induction mask as [|b mask IH]; intros [|x l] Hm Hl; try done.
  apply Forall_cons in Hm as [-> Hm]. simpl. f_equal. apply IH; [done|].
  simpl in Hl. lia.
Qed.

Lemma select_length {A B} (mask : list bool) (l1 : list A) (l2 : list B) :
  length l1 = length l2 → length (select mask l1) = length (select mask l2).
Proof.
  revert l1 l2. induction mask as [|b mask IH]; intros [|x l1] [|y l2] H;
    try done.
  simpl in *. destruct b; simpl; [f_equal|]; apply IH; lia.
Qed.

Section DateCells.

Variable to_datetime : string → parsed.
Variable to_datetime_Ym : string → parsed.
Variable now : nat → Z.
Variable float_str : float → string.
Variable datetime_str : option Z → string.
Variable percent_str : nat → nat → string.

Local Abbreviation safe_date_convert :=
  (Dates.safe_date_convert to_datetime to_datetime_Ym).
Local Abbreviation astype_str := (Dates.astype_str float_str datetime_str).
Local Abbreviation not_in_future := (Dates.not_in_future to_datetime now).
Local Abbreviation passes_filter := (Dates.passes_filter to_datetime now).
Local Abbreviation zone_free := (Dates.zone_free to_datetime).
Local Abbreviation clean_dates :=
  (Dates.clean_dates to_datetime to_datetime_Ym now float_str datetime_str
                     percent_str).
Local Abbreviation in_future := (Dates.in_future to_datetime now).
Local Abbreviation remains_unparsable :=
  (Dates.remains_unparsable to_datetime to_datetime_Ym).

Lemma astype_str_length s : length (astype_str s) = size s.
Proof. destruct s; simpl; by rewrite length_fmap. Qed.

Lemma safe_date_convert_total date_str :
  ∃ t, (safe_date_convert date_str).1 = Ok t.
Proof.
  unfold Dates.safe_date_convert. destruct date_str as [x|]; [|by eexists].
  destruct (_ || _); [by eexists|].
  destruct (to_datetime_Ym x); [by eexists..|].
  destruct (to_datetime x); by eexists.
Qed.

(** The filter turns down a row whose date is in the future or cannot be
    read. *)
Lemma passes_filter_false k x :
  in_future k x ∨ remains_unparsable x → passes_filter k x = false.
Proof.
  unfold Dates.passes_filter.
  intros [(t & -> & Hlt)|[_ Hg]].
  - apply Z.leb_gt. lia.
  - destruct (to_datetime x) as [t|t| |] eqn:E; [by destruct (Hg t)|done..].
Qed.

(** The call of the filter for one row: an answer for a text without a
    time zone, [TypeError] for a text with one; it prints nothing. *)
Lemma not_in_future_zone_free k x :
  zone_free x → not_in_future k x = py_ret (passes_filter k x).
Proof.
  intros Hx. unfold Dates.not_in_future, Dates.to_datetime_coerce,
    Dates.passes_filter.
  destruct (to_datetime x) as [t|t| |] eqn:E; try done. by destruct (Hx t).
Qed.

Lemma not_in_future_aware k x t :
  to_datetime x = Aware t → not_in_future k x = raise TypeError.
Proof.
  intros E. unfold Dates.not_in_future, Dates.to_datetime_coerce.
  by rewrite E.
Qed.

Lemma zone_free_or_aware x : zone_free x ∨ ∃ t, to_datetime x = Aware t.
Proof.
  unfold Dates.zone_free.
  destruct (to_datetime x) as [t|t| |]; [by left|right; by exists t|by left..].
Qed.

(** The mask of the filter: an answer for every row when no text has a
    time zone, and [TypeError] at the first text that has one. *)
Lemma filter_mask dates k :
  Forall zone_free dates →
  apply_from not_in_future k dates
  = py_ret (imap (λ j, passes_filter (k + j)) dates).
Proof.
  intros H. revert k. induction H as [|x dates Hx _ IH]; intros k; [done|].
  cbn [apply_from]. rewrite (not_in_future_zone_free _ _ Hx), bind_ret.
  rewrite IH, bind_ret. cbn [imap]. rewrite Nat.add_0_r. do 2 f_equal.
  apply imap_ext. intros j y _. simpl. f_equal. lia.
Qed.

Lemma filter_raises dates k :
  Exists (λ x, ∃ t, to_datetime x = Aware t) dates →
  apply_from not_in_future k dates = (Raise TypeError, []).
Proof.
  revert k. induction dates as [|x dates IH]; intros k H.
  - by apply Exists_nil in H.
  - cbn [apply_from].
    destruct (zone_free_or_aware x) as [Hx|[t Ht]].
    + rewrite (not_in_future_zone_free _ _ Hx), bind_ret.
      apply Exists_cons in H as [[t Ht]|H]; [by destruct (Hx t)|].
      by rewrite (IH _ H).
    + by rewrite (not_in_future_aware _ _ _ Ht).
Qed.

Lemma filter_mask_inv dates k mask :
  (apply_from not_in_future k dates).1 = Ok mask →
  Forall zone_free dates.
Proof.
  intros H. apply Forall_forall. intros x Hx.
  destruct (zone_free_or_aware x) as [|Haware]; [done|]. exfalso.
  rewrite filter_raises in H; [done|].
  apply Exists_exists. by exists x.
Qed.

(** The run of the date cells, in full, on a frame that has rows and no
    date text with a time zone. *)
Lemma clean_dates_frames df0 s :
  columns df0 !! "Date" = Some s →
  (0 < size s)%nat →
  let dates := date_repair <$> astype_str s in
  Forall zone_free dates →
  let mask := imap passes_filter dates in
  let df2 := boolean_index (setitem df0 "Date" (Text (Some <$> dates))) mask in
  ∃ converted printed,
    apply safe_date_convert (Some <$> select mask dates)
    = (Ok converted, printed)
    ∧ clean_dates df0
      = (Ok (mk_dates
               (setitem df2 "Date" (Datetime converted))
               (boolean_index (setitem df2 "Date" (Datetime converted))
                              (notna <$> converted))),
         "Converting dates..."
         :: printed
            ++ ["Successfully converted "
                +:+ pretty (count_true (notna <$> converted)) +:+ " out of "
                +:+ pretty (length (select mask (index df0))) +:+ " dates ("
                +:+ percent_str (count_true (notna <$> converted))
                                (length (select mask (index df0)))
                +:+ ")"]).
Proof.
  intros Hs Hrows dates Hzone mask df2. unfold Dates.clean_dates, getitem.
  rewrite Hs, bind_ret. fold dates.
  rewrite (filter_mask _ _ Hzone), bind_ret.
  change (imap (λ j, passes_filter (0 + j)) dates) with mask.
  rewrite bool_decide_eq_false_2.
  2:{ intros Hnil. apply (f_equal length) in Hnil.
      unfold mask, dates in Hnil.
      rewrite length_imap, length_fmap, astype_str_length in Hnil.
      simpl in Hnil. lia. }
  fold df2.
  destruct (apply safe_date_convert (Some <$> select mask dates))
    as [o printed] eqn:Ha.
  destruct (apply_total safe_date_convert (Some <$> select mask dates)
              safe_date_convert_total) as [converted Hc].
  rewrite Ha in Hc. cbn [fst] in Hc. subst o.
  exists converted, printed. split; [done|].
  unfold py_bind, print, py_ret. cbn [fst snd]. rewrite app_nil_r.
  reflexivity.
Qed.

(** The date cells run to their end only on a frame that has a [Date]
    column, rows, and no date text with a time zone. *)
Lemma clean_dates_ok df0 r :
  (clean_dates df0).1 = Ok r →
  ∃ s, columns df0 !! "Date" = Some s
    ∧ (0 < size s)%nat
    ∧ Forall zone_free (date_repair <$> astype_str s).
Proof.
  unfold Dates.clean_dates, getitem.
  destruct (columns df0 !! "Date") as [s|] eqn:Hs; [|done].
  rewrite bind_ret. intros H. exists s. split; [done|].
  set (dates := date_repair <$> astype_str s) in *.
  destruct (apply_from not_in_future 0 dates).1 as [mask|e] eqn:Hm;
    [|by rewrite (bind_raise _ _ _ Hm) in H].
  pose proof (filter_mask_inv _ _ _ Hm) as Hzone. split; [|done].
  rewrite (filter_mask _ _ Hzone), bind_ret in H.
  destruct (size s) eqn:Hsize; [|lia]. exfalso.
  assert (Hd : dates = []).
  { apply length_zero_iff_nil. unfold dates.
    by rewrite length_fmap, astype_str_length. }
  rewrite Hd in H. done.
Qed.

(** On a frame that has a [Date] column, rows and no date text with a
    time zone the date cells run to their end; [converted] is the [Date]
    column they leave in [df]. *)
Lemma clean_dates_run df0 s :
  columns df0 !! "Date" = Some s →
  (0 < size s)%nat →
  let dates := date_repair <$> astype_str s in
  Forall zone_free dates →
  let mask := imap passes_filter dates in
  ∃ r converted,
    (clean_dates df0).1 = Ok r
    ∧ (apply safe_date_convert (Some <$> select mask dates)).1 = Ok converted
    ∧ index (df r) = select mask (index df0)
    ∧ columns (df r) !! "Date" = Some (Datetime converted)
    ∧ index (df_clean r) = select (notna <$> converted) (index (df r)).
Proof.
  intros Hs Hrows dates Hzone mask.
  destruct (clean_dates_frames df0 s Hs Hrows Hzone)
    as (converted & printed & Ha & Hrun).
  fold dates in Ha, Hrun. fold mask in Ha, Hrun.
  eexists _, converted. rewrite Hrun. split; [reflexivity|].
  split; [by rewrite Ha|].
  cbn [df df_clean index columns setitem boolean_index].
  split; [done|]. split; [by rewrite lookup_insert_eq|done].
Qed.


(** X5: [df_clean] is never read after it is made.  On a frame that has
    rows and no date text with a time zone that loses nothing when the
    parsers behave as pandas' do on the texts the conversion does not
    parse: the empty text and "N/A" are no dates for the fallback parser,
    and a text the parser with the format reads as NaT is no date for the
    fallback parser either.  Then every row the filter keeps gets a date,
    and [df_clean] has the rows of [df]. *)
Theorem df_clean_has_the_rows_of_df df0 s :
  well_formed df0 →
  columns df0 !! "Date" = Some s →
  (0 < size s)%nat →
  Forall zone_free (date_repair <$> astype_str s) →
  (∀ t, to_datetime "" ≠ Timestamp t) →
  (∀ t, to_datetime "N/A" ≠ Timestamp t) →
  (∀ x t, to_datetime_Ym x = NaT → to_datetime x ≠ Timestamp t) →
  ∃ r converted,
    (clean_dates df0).1 = Ok r
    ∧ columns (df r) !! "Date" = Some (Datetime converted)
    ∧ Forall (λ t, is_Some t) converted
    ∧ index (df_clean r) = index (df r).
Proof.
  intros Hwf Hs Hrows Hzone Hempty Hna Hnat.
  destruct (clean_dates_run df0 s Hs Hrows Hzone)
    as (r & converted & Hr & Hc & Hi & Hd & Hclean).
  exists r, converted. split; [done|]. split; [done|].
  set (dates := date_repair <$> astype_str s) in *.
  set (mask := imap passes_filter dates) in *.
  apply apply_values in Hc.
  assert (Hsome : Forall (λ t, is_Some t) converted).
  { apply Forall2_fmap_l in Hc.
    eapply Forall2_Forall_r; [exact Hc|].
    apply Forall_forall. intros x Hx t Ht.
    apply select_elem in Hx as (k & Hk & Hm).
    unfold mask in Hm. rewrite list_lookup_imap, Hk in Hm.
    injection Hm as Hm.
    unfold Dates.passes_filter in Hm.
    destruct (to_datetime x) as [t0|t0| |] eqn:Ex; [|done..].
    unfold Dates.safe_date_convert in Ht.
    cbv beta delta [compose] iota in Ht.
    match type of Ht with
    | context [if ?b then _ else _] => destruct b eqn:Eb
    end.
    { apply orb_true_iff in Eb as [E|E];
        apply bool_decide_eq_true in E as ->;
        [by destruct (Hempty t0) | by destruct (Hna t0)]. }
    destruct (to_datetime_Ym x) as [t1|t1| |] eqn:Ey.
    - injection Ht as <-. by eexists.
    - injection Ht as <-. by eexists.
    - by destruct (Hnat x t0 Ey).
    - rewrite Ex in Ht. injection Ht as <-. by eexists. }
  split; [done|].
  rewrite Hclean. apply select_all.
  - apply Forall_fmap. eapply Forall_impl; [exact Hsome|].
    by intros t [t' ->].
  - rewrite length_fmap, Hi.
    rewrite <- (Forall2_length _ _ _ Hc), length_fmap.
    apply select_length. unfold dates.
    rewrite length_fmap, astype_str_length. by apply (Hwf "Date").
Qed.

End DateCells.

(** The example parser reads no time zone. *)
Lemma example_zone_free dates : Forall (zone_free example_to_datetime) dates.
Proof.
  apply Forall_forall. intros x _ t. unfold example_to_datetime.
  repeat case_bool_decide; discriminate.
Qed.

Example example_clean_dates_rows :
  (λ r, (index (df r), columns (df r) !! "Date")) <$>
    (match example_clean_dates.1 with Ok r => Some r | Raise _ => None end)
  = Some ([0%nat], Some (Datetime [Some 1680307200%Z])).
Proof. vm_compute. reflexivity. Qed.

Lemma df_clean_has_the_rows_of_df_witness :
  ∃ r converted,
    example_clean_dates.1 = Ok r
    ∧ columns (df r) !! "Date" = Some (Datetime converted)
    ∧ Forall (λ t, is_Some t) converted
    ∧ index (df_clean r) = index (df r).
Proof.
  apply (df_clean_has_the_rows_of_df
           example_to_datetime example_to_datetime example_now
           (λ _, "") (λ _, "") (λ _ _, "")
           example_dates
           (Text [Some "2023-04"; Some "2999.01"; Some "soon"])).
  - intros col s H. unfold example_dates in H. cbn [columns] in H.
    apply lookup_singleton_Some in H as [_ <-]. reflexivity.
  - reflexivity.
  - apply Nat.lt_0_succ.
  - apply example_zone_free.
  - intros t. discriminate.
  - intros t. discriminate.
  - intros x t H. unfold example_to_datetime in H.
    repeat case_bool_decide; discriminate.
Defined.


End DatesFacts.

(** ** The significant-delay flag *)
Module FeaturesFacts.
Import Python PythonFacts Float Frame Features.

(** The flag of one value: 1 when the value is over 15, else 0; a missing
    value is not over 15. *)
Lemma astype_int_lookup mask k :
  astype_int mask !! k = (λ b : bool, if b then 1%Z else 0%Z) <$> mask !! k.
Proof. unfold astype_int. apply list_lookup_fmap. Qed.

(** What the last cell does on a column of numbers, floats or integers. *)
Lemma flag_significant_delays_numbers df s :
  columns df !! arrival_delay = Some s →
  (∃ v, s = Float64 v) ∨ (∃ l, s = Int64 l) →
  ∃ mask,
    flag_significant_delays df
    = py_ret (setitem df "Is_Significantly_Delayed" (Int64 (astype_int mask)))
    ∧ length mask = size s
    ∧ (∀ v, s = Float64 v → mask = (λ x, gtb x (of_Z 15)) <$> v)
    ∧ (∀ l, s = Int64 l → mask = (λ z, (15 <? z)%Z) <$> l).
Proof.
  intros Hs Hnum. unfold flag_significant_delays, getitem.
  rewrite Hs, bind_ret.
  destruct Hnum as [[v ->]|[l ->]]; cbn [series_gt]; rewrite bind_ret;
    eexists; (split; [reflexivity|]); (split; [by rewrite length_fmap|]);
    split; intros ? [= <-]; done.
Qed.

(** C7: when the arrival-delay column holds numbers, floats or integers,
    the last cell adds a column [Is_Significantly_Delayed] of the same
    length whose entry in each row is 1 if the delay of that row is over 15
    and 0 otherwise (a missing delay gets 0); a delay of 20 gets 1 and a
    delay of 10 gets 0.  The delays themselves and the rows are left as
    they were. *)
Theorem significant_delay_flag df s :
  columns df !! arrival_delay = Some s →
  (∃ v, s = Float64 v) ∨ (∃ l, s = Int64 l) →
  ∃ df' flags,
    (flag_significant_delays df).1 = Ok df'
    ∧ index df' = index df
    ∧ columns df' !! arrival_delay = Some s
    ∧ columns df' !! "Is_Significantly_Delayed" = Some (Int64 flags)
    ∧ length flags = size s
    ∧ (∀ v k x, s = Float64 v → v !! k = Some x →
         ∃ flag, flags !! k = Some flag
           ∧ (flag = 1%Z ∨ flag = 0%Z)
           ∧ (flag = 1%Z ↔ gtb x (of_Z 15) = true))
    ∧ (∀ l k z, s = Int64 l → l !! k = Some z →
         ∃ flag, flags !! k = Some flag
           ∧ (flag = 1%Z ∨ flag = 0%Z)
           ∧ (flag = 1%Z ↔ (15 < z)%Z))
    ∧ (∀ k, iloc s k = Some (FloatCell (of_Z 20))
            ∨ iloc s k = Some (IntCell 20) → flags !! k = Some 1%Z)
    ∧ (∀ k, iloc s k = Some (FloatCell (of_Z 10))
            ∨ iloc s k = Some (IntCell 10) → flags !! k = Some 0%Z).
Proof.
  intros Hs Hnum.
  destruct (flag_significant_delays_numbers df s Hs Hnum)
    as (mask & Hrun & Hlen & Hfloat & Hint).
  eexists _, (astype_int mask). rewrite Hrun. split; [reflexivity|].
  cbn [index columns setitem].
  split; [done|]. split; [by rewrite lookup_insert_ne|].
  split; [by rewrite lookup_insert_eq|].
  split; [by unfold astype_int; rewrite length_fmap|].
  assert (Hf : ∀ v k x, s = Float64 v → v !! k = Some x →
            astype_int mask !! k
            = Some (if gtb x (of_Z 15) then 1%Z else 0%Z)).
  { intros v k x Hv Hx. rewrite (Hfloat v Hv).
    by rewrite astype_int_lookup, list_lookup_fmap, Hx. }
  assert (Hi : ∀ l k z, s = Int64 l → l !! k = Some z →
            astype_int mask !! k = Some (if (15 <? z)%Z then 1%Z else 0%Z)).
  { intros l k z Hl Hz. rewrite (Hint l Hl).
    by rewrite astype_int_lookup, list_lookup_fmap, Hz. }
  split; [|split; [|split]].
  - intros v k x Hv Hx. eexists. split; [by apply (Hf v)|].
    destruct (gtb x (of_Z 15)); split; auto; split; done.
  - intros l k z Hl Hz. eexists. split; [by apply (Hi l)|].
    destruct (Z.ltb_spec 15 z); split; auto; split; (done || lia).
  - intros k [Hk|Hk]; destruct s as [l|v|l|l]; simpl in Hk;
      try (destruct (_ !! k); discriminate Hk).
    + destruct (v !! k) as [x|] eqn:Hx; [|done]. injection Hk as ->.
      by rewrite (Hf v k _ eq_refl Hx).
    + destruct (l !! k) as [z|] eqn:Hz; [|done]. injection Hk as ->.
      by rewrite (Hi l k _ eq_refl Hz).
  - intros k [Hk|Hk]; destruct s as [l|v|l|l]; simpl in Hk;
      try (destruct (_ !! k); discriminate Hk).
    + destruct (v !! k) as [x|] eqn:Hx; [|done]. injection Hk as ->.
      by rewrite (Hf v k _ eq_refl Hx).
    + destruct (l !! k) as [z|] eqn:Hz; [|done]. injection Hk as ->.
      by rewrite (Hi l k _ eq_refl Hz).
Qed.

Lemma significant_delay_flag_witness :
  (∃ df' flags,
     (flag_significant_delays
        (mk_frame [0; 1; 2]%nat
           {[ arrival_delay := Float64 [of_Z 20; of_Z 10; NaN] ]})).1 = Ok df'
     ∧ columns df' !! "Is_Significantly_Delayed" = Some (Int64 flags)
     ∧ flags = [1; 0; 0]%Z)
  ∧ (∃ df' flags,
       (flag_significant_delays
          (mk_frame [0; 1; 2]%nat
             {[ arrival_delay := Int64 [20; 10; 16]%Z ]})).1 = Ok df'
       ∧ columns df' !! "Is_Significantly_Delayed" = Some (Int64 flags)
       ∧ flags = [1; 0; 1]%Z).
Proof.
  split.
  - destruct (significant_delay_flag
                (mk_frame [0; 1; 2]%nat
                   {[ arrival_delay := Float64 [of_Z 20; of_Z 10; NaN] ]})
                (Float64 [of_Z 20; of_Z 10; NaN]))
      as (df' & flags & Hok & _ & _ & Hf & Hlen & Hk & _ & H20 & H10).
    + reflexivity.
    + left. by eexists.
    + exists df', flags. split; [exact Hok|]. split; [exact Hf|].
      destruct flags as [|a [|b [|c [|? ?]]]]; try discriminate Hlen.
      specialize (H20 0%nat (or_introl eq_refl)).
      specialize (H10 1%nat (or_introl eq_refl)).
      destruct (Hk _ 2%nat NaN eq_refl eq_refl)
        as (flag & Hc & [->| ->] & Hiff).
      * destruct Hiff as [Hiff _]. discriminate (Hiff eq_refl).
      * simpl in *. congruence.
  - destruct (significant_delay_flag
                (mk_frame [0; 1; 2]%nat
                   {[ arrival_delay := Int64 [20; 10; 16]%Z ]})
                (Int64 [20; 10; 16]%Z))
      as (df' & flags & Hok & _ & _ & Hf & Hlen & _ & Hk & H20 & H10).
    + reflexivity.
    + right. by eexists.
    + exists df', flags. split; [exact Hok|]. split; [exact Hf|].
      destruct flags as [|a [|b [|c [|? ?]]]]; try discriminate Hlen.
      specialize (H20 0%nat (or_intror eq_refl)).
      specialize (H10 1%nat (or_intror eq_refl)).
      destruct (Hk _ 2%nat 16%Z eq_refl eq_refl)
        as (flag & Hc & [->| ->] & Hiff).
      * simpl in *. congruence.
      * destruct Hiff as [_ Hiff]. discriminate (Hiff eq_refl).
Defined.

End FeaturesFacts.

(** ** The season of a month *)
Module SeasonsFacts.
Import Seasons.

(** December to February is winter, March to May spring, June to August
    summer, September to November fall; a missing month and a number that
    is no month are unknown. *)
Theorem season_of_month :
  season None = "Unknown"
  ∧ ∀ m : Z,
      season (Some m)
      = if bool_decide (m = 12 ∨ 1 ≤ m ≤ 2)%Z then "Winter"
        else if bool_decide (3 ≤ m ≤ 5)%Z then "Spring"
        else if bool_decide (6 ≤ m ≤ 8)%Z then "Summer"
        else if bool_decide (9 ≤ m ≤ 11)%Z then "Fall"
        else "Unknown".
Proof.
  split; [done|]. intros m. unfold season.
  repeat case_bool_decide; try done; set_unfold; lia.
Qed.

Example season_examples :
  season (Some 1%Z) = "Winter" ∧ season (Some 4%Z) = "Spring"
  ∧ season (Some 7%Z) = "Summer" ∧ season (Some 10%Z) = "Fall".
Proof. by vm_compute. Qed.

End SeasonsFacts.

(** ** The order of floats *)
Module FloatFacts.
Import Float.

Lemma Qle_bool_false p q : Qle_bool p q = false → (q < p)%Q.
Proof.
  intros H. apply Qnot_le_lt. intros Hle.
  apply Qle_bool_iff in Hle. congruence.
Qed.

Ltac to_Q :=
  repeat match goal with
         | H : negb _ = true |- _ => apply negb_true_iff in H
         | H : negb _ = false |- _ => apply negb_false_iff in H
         | H : Qle_bool _ _ = true |- _ => apply Qle_bool_iff in H
         | H : Qle_bool _ _ = false |- _ => apply Qle_bool_false in H
         | |- negb _ = true => apply negb_true_iff
         | |- negb _ = false => apply negb_false_iff
         | |- Qle_bool ?p ?q = true => apply Qle_bool_iff
         | |- Qle_bool ?p ?q = false =>
             destruct (Qle_bool p q) eqn:?; [exfalso|reflexivity]
         end.

Ltac float_order a b c :=
  destruct a, b, c; simpl; intros; try done; to_Q; lra.

Lemma ltb_trans a b c : ltb a b = true → ltb b c = true → ltb a c = true.
Proof. float_order a b c. Qed.

Lemma leb_ltb_trans a b c : leb a b = true → ltb b c = true → ltb a c = true.
Proof. float_order a b c. Qed.

Lemma ltb_not_leb a b : ltb a b = true → leb b a = false.
Proof. destruct a, b; simpl; intros; try done; to_Q; lra. Qed.

Lemma ltb_asym a b : ltb a b = true → ltb b a = false.
Proof. destruct a, b; simpl; intros; try done; to_Q; lra. Qed.

End FloatFacts.

(** ** The choice of the best model *)
Module ModelSelectionFacts.
Import Float FloatFacts ModelSelection.

Section Min.
Context {A : Type} (key : A → float).

Lemma min_from_smaller best l :
  min_from key best l = best
  ∨ ltb (key (min_from key best l)) (key best) = true.
Proof.
  revert best. induction l as [|z l IH]; intros b; simpl; [by left|].
  destruct (ltb (key z) (key b)) eqn:E.
  - destruct (IH z) as [->|H]; [by right|]. right. by eapply ltb_trans.
  - apply IH.
Qed.

(** Nothing in the list has a smaller key than the item chosen. *)
Lemma min_from_lower best l x :
  x ∈ best :: l → ltb (key x) (key (min_from key best l)) = false.
Proof.
  revert best x. induction l as [|y l IH]; intros best x Hx; simpl.
  - apply list_elem_of_singleton in Hx as ->.
    destruct (ltb (key best) (key best)) eqn:E; [|done].
    by rewrite (ltb_asym _ _ E) in E.
  - set (b' := if ltb (key y) (key best) then y else best).
    assert (Hb : ltb (key best) (key b') = false).
    { unfold b'. destruct (ltb (key y) (key best)) eqn:E; [by apply ltb_asym|].
      destruct (ltb (key best) (key best)) eqn:E'; [|done].
      by rewrite (ltb_asym _ _ E') in E'. }
    assert (Hr : min_from key b' l = b'
                 ∨ ltb (key (min_from key b' l)) (key b') = true)
      by apply min_from_smaller.
    apply elem_of_cons in Hx as [->|Hx]; [|apply elem_of_cons in Hx as [->|Hx]].
    + destruct Hr as [->|Hr]; [done|].
      destruct (ltb (key best) (key (min_from key b' l))) eqn:E; [|done].
      by rewrite (ltb_trans _ _ _ E Hr) in Hb.
    + destruct (ltb (key y) (key (min_from key b' l))) eqn:E; [|done].
      assert (Hy : ltb (key y) (key b') = false).
      { unfold b'. destruct (ltb (key y) (key best)) eqn:E'; [|done].
        destruct (ltb (key y) (key y)) eqn:E''; [|done].
        by rewrite (ltb_asym _ _ E'') in E''. }
      destruct Hr as [Hr|Hr]; [by rewrite Hr, Hy in E|].
      by rewrite (ltb_trans _ _ _ E Hr) in Hy.
    + apply IH. by right.
Qed.

(** The item chosen is the current one, or it comes later, has a smaller
    key, and nothing between the two has a key as small. *)
Lemma min_from_first best l :
  min_from key best l = best
  ∨ ∃ pre post,
      l = pre ++ min_from key best l :: post
      ∧ ltb (key (min_from key best l)) (key best) = true
      ∧ ∀ y, y ∈ pre → leb (key y) (key (min_from key best l)) = false.
Proof.
  revert best. induction l as [|x l IH]; intros best; simpl; [by left|].
  destruct (ltb (key x) (key best)) eqn:E.
  - right. destruct (IH x) as [Hr|(pre & post & Hl & Hlt & Hpre)].
    + exists [], l. rewrite Hr. split; [done|]. split; [done|].
      intros y Hy. by apply elem_of_nil in Hy.
    + exists (x :: pre), post. split; [by rewrite Hl at 1|].
      split; [by eapply ltb_trans|].
      intros y [->|Hy]%elem_of_cons; [by apply ltb_not_leb|by apply Hpre].
  - destruct (IH best) as [Hr|(pre & post & Hl & Hlt & Hpre)]; [by left|].
    right. exists (x :: pre), post. split; [by rewrite Hl at 1|].
    split; [done|].
    intros y [->|Hy]%elem_of_cons; [|by apply Hpre].
    destruct (leb (key x) (key (min_from key best l))) eqn:E'; [|done].
    by rewrite (leb_ltb_trans _ _ _ E' Hlt) in E.
Qed.

Lemma py_min_first l :
  l ≠ [] →
  ∃ r pre post,
    py_min key l = Some r
    ∧ l = pre ++ r :: post
    ∧ (∀ y, y ∈ pre → leb (key y) (key r) = false)
    ∧ (∀ y, y ∈ post → ltb (key y) (key r) = false).
Proof.
  destruct l as [|x l]; [done|]. intros _. simpl.
  assert (Hlow := min_from_lower x l).
  destruct (min_from_first x l) as [Hr|(pre & post & Hl & Hlt & Hpre)].
  - exists x, [], l. rewrite Hr in *. split; [done|]. split; [done|].
    split; [intros y Hy; by apply elem_of_nil in Hy|].
    intros y Hy. apply Hlow. by right.
  - exists (min_from key x l), (x :: pre), post. split; [done|].
    split; [by rewrite Hl at 1|]. split.
    + intros y [->|Hy]%elem_of_cons; [by apply ltb_not_leb|by apply Hpre].
    + intros y Hy. apply Hlow. right. rewrite Hl.
      apply elem_of_app. right. by right.
Qed.

End Min.

(** X3: the best model is one of the four candidates; no candidate has a
    smaller RMSE, and no candidate listed before it has an RMSE as small:
    of several candidates with the least RMSE the first is chosen. *)
Theorem best_model_name_first_least (rmse : string → float) :
  ∃ best pre post,
    best_model_name rmse = Some best
    ∧ model_names = pre ++ best :: post
    ∧ (∀ name, name ∈ pre → leb (rmse name) (rmse best) = false)
    ∧ (∀ name, name ∈ post → ltb (rmse name) (rmse best) = false).
Proof. by apply py_min_first. Qed.

End ModelSelectionFacts.

(** ** More on the date repair *)
Module DateRepairLaws.
Import Re DateRepair.

Lemma length_app (s1 s2 : string) :
  String.length (s1 +:+ s2) = (String.length s1 + String.length s2)%nat.
Proof. induction s1 as [|c s1 IH]; simpl; [done|]. by rewrite IH. Qed.

Lemma match_classes_nil s m rest :
  match_classes [] s = Some (m, rest) → m = "" ∧ s = rest.
Proof. simpl. by intros [= <- <-]. Qed.

Lemma match_classes_cons k p s m rest :
  match_classes (k :: p) s = Some (m, rest) →
  ∃ c s' m',
    s = String c s' ∧ class_matches k c = true ∧ m = String c m'
    ∧ match_classes p s' = Some (m', rest).
Proof.
  simpl. destruct s as [|c s']; [done|].
  destruct (class_matches k c) eqn:Ek; [|done].
  destruct (match_classes p s') as [[m' r]|] eqn:Ep; [|done].
  intros [= <- <-]. by exists c, s', m'.
Qed.

Lemma match_groups_cons g gs s ms rest :
  match_groups (g :: gs) s = Some (ms, rest) →
  ∃ m r ms',
    match_classes g s = Some (m, r) ∧ match_groups gs r = Some (ms', rest)
    ∧ ms = m :: ms'.
Proof.
  simpl. destruct (match_classes g s) as [[m r]|]; [|done].
  destruct (match_groups gs r) as [[ms' r']|] eqn:E; [|done].
  intros [= <- <-]. by exists m, r, ms'.
Qed.

Ltac invert_match :=
  repeat match goal with
         | H : match_groups (_ :: _) _ = Some _ |- _ =>
             apply match_groups_cons in H as (? & ? & ? & ? & H & ->)
         | H : match_groups [] _ = Some _ |- _ =>
             simpl in H; injection H as <- <-
         | H : match_classes (_ :: _) _ = Some _ |- _ =>
             apply match_classes_cons in H as (? & ? & ? & -> & ? & -> & H)
         | H : match_classes [] _ = Some _ |- _ =>
             apply match_classes_nil in H as [-> ->]
         end.

(** A text the repair pattern matches at its start: four digits, a
    character that is no hyphen, two digits, and the rest. *)
Lemma match_groups_inv s ms rest :
  match_groups repair_pattern s = Some (ms, rest) →
  ∃ y1 y2 y3 y4 sep m1 m2,
    s = String y1 (String y2 (String y3 (String y4
          (String sep (String m1 (String m2 rest))))))
    ∧ ms = [String y1 (String y2 (String y3 (String y4 "")));
            String sep ""; String m1 (String m2 "")]
    ∧ forallb is_digit [y1; y2; y3; y4; m1; m2] = true
    ∧ sep ≠ "-"%char.
Proof.
  unfold repair_pattern, repeat_class. cbn [replicate]. intros H.
  invert_match.
  repeat match goal with
         | H : class_matches Digit _ = true |- _ => simpl in H
         end.
  do 7 eexists. split; [reflexivity|]. split; [reflexivity|]. split.
  - simpl.
    repeat match goal with
           | H : is_digit _ = true |- _ => rewrite H; clear H
           end.
    reflexivity.
  - intros ->. done.
Qed.

Lemma re_match_groups s :
  re_match detect_pattern s
  = match match_groups repair_pattern s with Some _ => true | None => false end.
Proof.
  unfold re_match.
  assert (Happ : ∀ p q s,
    match_classes (p ++ q) s
    = match match_classes p s with
      | Some (m, r) =>
          match match_classes q r with
          | Some (m', r') => Some (m +:+ m', r')
          | None => None
          end
      | None => None
      end).
  { clear. induction p as [|k p IH]; intros q s; simpl.
    - by destruct (match_classes q s) as [[m r]|].
    - destruct s as [|c s]; [done|]. destruct (class_matches k c); [|done].
      rewrite IH. destruct (match_classes p s) as [[m r]|]; [|done].
      by destruct (match_classes q r) as [[m' r']|]. }
  unfold detect_pattern, repair_pattern. rewrite !Happ.
  cbn [match_groups].
  destruct (match_classes (repeat_class Digit 4) s) as [[m1 r1]|]; [|done].
  rewrite Happ.
  destruct (match_classes [NotChar "-"] r1) as [[m2 r2]|]; [|done].
  by destruct (match_classes (repeat_class Digit 2) r2) as [[m3 r3]|].
Qed.

(** Skipping over the rest of a match. *)
Lemma sub_scan_skip gs t k s1 s2 :
  String.length s1 = k →
  sub_scan gs t k (s1 +:+ s2) = sub_scan gs t 0 s2.
Proof.
  revert k. induction s1 as [|c s1 IH]; intros k Hk; simpl in *.
  - by subst.
  - destruct k as [|k]; [done|]. destruct s2; simpl; apply IH; lia.
Qed.

Lemma sub_scan_here gs t c s :
  sub_scan gs t 0 (String c s)
  = match match_groups gs (String c s) with
    | Some (ms, _) =>
        expand t ms +:+ sub_scan gs t (pred (pattern_length gs)) s
    | None => String c (sub_scan gs t 0 s)
    end.
Proof. reflexivity. Qed.

(** The repair of a text that the pattern matches at its start. *)
Lemma date_repair_matched y1 y2 y3 y4 sep m1 m2 rest ms r :
  match_groups repair_pattern
    (String y1 (String y2 (String y3 (String y4
       (String sep (String m1 (String m2 rest)))))))
  = Some (ms, r) →
  date_repair
    (String y1 (String y2 (String y3 (String y4
       (String sep (String m1 (String m2 rest)))))))
  = String y1 (String y2 (String y3 (String y4
       (String "-" (String m1 (String m2
          (re_sub repair_pattern repair_template rest))))))).
Proof.
  intros Hm. unfold date_repair. rewrite re_match_groups, Hm.
  unfold re_sub. rewrite sub_scan_here, Hm.
  apply match_groups_inv in Hm
    as (? & ? & ? & ? & ? & ? & ? & Hs & -> & _ & _).
  injection Hs as <- <- <- <- <- <- <- <-.
  change (String y2 (String y3 (String y4
            (String sep (String m1 (String m2 rest))))))
    with (String y2 (String y3 (String y4
            (String sep (String m1 (String m2 ""))))) +:+ rest).
  rewrite (sub_scan_skip _ _ (pred (pattern_length repair_pattern))) by done.
  reflexivity.
Qed.

(** Every replacement puts seven characters for seven. *)
Lemma re_sub_length s :
  String.length (re_sub repair_pattern repair_template s) = String.length s.
Proof.
  unfold re_sub.
  assert (H : ∀ n s, (String.length s ≤ n)%nat →
            String.length (sub_scan repair_pattern repair_template 0 s)
            = String.length s); [|by apply (H (String.length s))].
  clear s.
  induction n as [|n IH]; intros [|c s] Hle; simpl in Hle; try done;
    try lia.
  rewrite sub_scan_here.
  destruct (match_groups repair_pattern (String c s)) as [[ms rest]|] eqn:Hm.
  - apply match_groups_inv in Hm
      as (y1 & y2 & y3 & y4 & sep & m1 & m2 & Hs & -> & _ & _).
    injection Hs as -> ->.
    change (String y2 (String y3 (String y4
              (String sep (String m1 (String m2 rest))))))
      with (String y2 (String y3 (String y4
              (String sep (String m1 (String m2 ""))))) +:+ rest).
    rewrite (sub_scan_skip _ _ (pred (pattern_length repair_pattern)))
      by done.
    rewrite length_app, IH by (simpl in Hle; lia).
    simpl. rewrite !length_app. simpl. lia.
  - simpl. rewrite IH by lia. done.
Qed.

(** X6: a repaired text is not repaired again: the detection pattern never
    matches the result, so the repair is idempotent; and the result is as
    long as the text was. *)
Theorem date_repair_idempotent x :
  re_match detect_pattern (date_repair x) = false
  ∧ date_repair (date_repair x) = date_repair x
  ∧ String.length (date_repair x) = String.length x.
Proof.
  assert (Hno : ∀ y, re_match detect_pattern y = false → date_repair y = y).
  { intros y Hy. unfold date_repair. by rewrite Hy. }
  destruct (match_groups repair_pattern x) as [[ms rest]|] eqn:Hm.
  - pose proof Hm as Hinv. apply match_groups_inv in Hinv
      as (y1 & y2 & y3 & y4 & sep & m1 & m2 & -> & _ & Hd & _).
    rewrite (date_repair_matched _ _ _ _ _ _ _ _ _ _ Hm).
    assert (Hout : re_match detect_pattern
              (String y1 (String y2 (String y3 (String y4
                 (String "-" (String m1 (String m2
                    (re_sub repair_pattern repair_template rest))))))))
              = false).
    { simpl in Hd.
      apply andb_true_iff in Hd as [H1 Hd]. apply andb_true_iff in Hd as [H2 Hd].
      apply andb_true_iff in Hd as [H3 Hd]. apply andb_true_iff in Hd as [H4 _].
      unfold re_match, detect_pattern. simpl. by rewrite H1, H2, H3, H4. }
    split; [done|]. split; [by apply Hno|].
    simpl. by rewrite re_sub_length.
  - assert (Hx : re_match detect_pattern x = false)
      by (by rewrite re_match_groups, Hm).
    rewrite (Hno x Hx). by rewrite (Hno x Hx).
Qed.

(** X7: a text of fewer than seven characters, and a text whose fifth
    character is a hyphen, is left as it is. *)
Theorem date_repair_unchanged x :
  (String.length x < 7)%nat ∨ String.get 4 x = Some "-"%char →
  date_repair x = x.
Proof.
  intros H. unfold date_repair. rewrite re_match_groups.
  destruct (match_groups repair_pattern x) as [[ms rest]|] eqn:Hm; [|done].
  apply match_groups_inv in Hm
    as (y1 & y2 & y3 & y4 & sep & m1 & m2 & -> & _ & _ & Hsep).
  destruct H as [H|H]; [simpl in H; lia|].
  simpl in H. congruence.
Qed.

Lemma date_repair_unchanged_witness :
  date_repair "202304" = "202304" ∧ date_repair "2023-04-15" = "2023-04-15".
Proof.
  split.
  - apply date_repair_unchanged. left. simpl. lia.
  - apply date_repair_unchanged. right. reflexivity.
Defined.

End DateRepairLaws.

(** ** More on the date cells *)
Module DatesLaws.
Import Python PythonFacts Float Frame DateRepair Dates DatesFacts.

Lemma select_keeps {A} (mask : list bool) (l : list A) k x :
  l !! k = Some x → mask !! k = Some true → x ∈ select mask l.
Proof.
  revert l k. induction mask as [|b mask IH]; intros [|y l] [|k] Hl Hm;
    simpl in *; try done.
  - injection Hl as ->. injection Hm as ->. left.
  - destruct b; [right|]; by eapply IH.
Qed.

Lemma select_sublist {A} (mask : list bool) (l : list A) :
  select mask l `sublist_of` l.
Proof.
  revert l. induction mask as [|b mask IH]; intros [|x l]; simpl;
    try apply sublist_nil_l.
  destruct b; [by apply sublist_skip|by apply sublist_cons].
Qed.

Lemma select_series_size mask s n :
  size s = n → size (select_series mask s) = length (select mask (seq 0 n)).
Proof.
  intros <-. destruct s; simpl; apply select_length; by rewrite length_seq.
Qed.

(** [df[mask]] keeps a frame well formed. *)
Lemma boolean_index_well_formed df mask :
  well_formed df → well_formed (boolean_index df mask).
Proof.
  intros Hwf col s. unfold boolean_index. cbn [columns index].
  rewrite lookup_fmap. destruct (columns df !! col) as [s0|] eqn:E; [|done].
  intros [= <-]. rewrite (select_series_size _ _ _ (Hwf _ _ E)).
  apply select_length. by rewrite length_seq.
Qed.

Lemma setitem_well_formed df col s :
  well_formed df → size s = length (index df) →
  well_formed (setitem df col s).
Proof.
  intros Hwf Hs c s'. unfold setitem. cbn [columns index].
  destruct (decide (col = c)) as [->|Hne].
  - rewrite lookup_insert_eq. by intros [= <-].
  - rewrite lookup_insert_ne by done. apply Hwf.
Qed.

(** [apply] prints what its calls print. *)
Lemma apply_silent {A B} (f : A → Py B) l :
  (∀ x, x ∈ l → (f x).2 = [] ∧ ∃ y, (f x).1 = Ok y) → (apply f l).2 = [].
Proof.
  induction l as [|x l IH]; intros H; [done|]. simpl.
  destruct (H x ltac:(left)) as [Hp [y Hy]].
  rewrite (bind_ok _ _ _ Hy). cbn [fst snd]. rewrite Hp. simpl.
  assert (Hl : (apply f l).2 = []) by (apply IH; intros; apply H; by right).
  destruct (apply f l).1 as [ys|e] eqn:El.
  - rewrite (bind_ok _ _ _ El). simpl. by rewrite Hl.
  - rewrite (bind_raise _ _ _ El). simpl. done.
Qed.

(** The positions a mask keeps, in increasing order: the entry of
    [l[mask]] at [j] is the entry of [l] at the [j]-th of them. *)
Lemma select_positions (mask : list bool) :
  ∃ kept : list nat,
    StronglySorted lt kept
    ∧ (∀ k, k ∈ kept ↔ mask !! k = Some true)
    ∧ ∀ A (l : list A),
        (length (select mask l) ≤ length kept)%nat
        ∧ ∀ j k, kept !! j = Some k → select mask l !! j = l !! k.
Proof.
  induction mask as [|b mask (kept & Hsorted & Hin & Hsel)].
  { exists []. split; [constructor|]. split.
    - intros k. split; [by intros ?%elem_of_nil|done].
    - intros A l. split; [simpl; lia|]. intros j k H. done. }
  assert (Hshift : StronglySorted lt (S <$> kept)).
  { clear -Hsorted. induction Hsorted as [|k kept Hs IH Hk]; [constructor|].
    rewrite fmap_cons. constructor; [done|].
    apply Forall_fmap. eapply Forall_impl; [exact Hk|]. simpl. lia. }
  assert (Hmem : ∀ k, k ∈ S <$> kept ↔ ∃ k', k = S k' ∧ mask !! k' = Some true).
  { intros k. rewrite list_elem_of_fmap. split.
    - intros (k' & -> & Hk'). exists k'. split; [done|]. by apply Hin.
    - intros (k' & -> & Hk'). exists k'. split; [done|]. by apply Hin. }
  destruct b.
  - exists (0%nat :: (S <$> kept)). split; [|split].
    + constructor; [done|]. apply Forall_fmap, Forall_true. simpl. lia.
    + intros [|k]; split; try done.
      * intros _. left.
      * intros [?|(k' & [= <-] & Hk')%Hmem]%elem_of_cons; done.
      * intros Hk. right. apply Hmem. by exists k.
    + intros A [|x l]; simpl.
      { split; [lia|]. by intros j k _. }
      destruct (Hsel A l) as [Hlen Hat]. rewrite length_fmap. split; [lia|].
      intros [|j] k Hk; simpl in Hk.
      * by injection Hk as <-.
      * rewrite list_lookup_fmap in Hk.
        destruct (kept !! j) as [k'|] eqn:Ej; [|done].
        injection Hk as <-. simpl. by apply Hat.
  - exists (S <$> kept). split; [done|]. split.
    + intros [|k]; split; try done.
      * by intros (k' & [=] & _)%Hmem.
      * intros (k' & [= <-] & Hk')%Hmem. done.
      * intros Hk. apply Hmem. by exists k.
    + intros A [|x l]; simpl.
      { split; [lia|]. by intros j k _. }
      destruct (Hsel A l) as [Hlen Hat]. rewrite length_fmap. split; [lia|].
      intros j k Hk. rewrite list_lookup_fmap in Hk.
      destruct (kept !! j) as [k'|] eqn:Ej; [|done].
      injection Hk as <-. simpl. by apply Hat.
Qed.

Section DateCells.

Variable to_datetime : string → parsed.
Variable to_datetime_Ym : string → parsed.
Variable now : nat → Z.
Variable float_str : float → string.
Variable datetime_str : option Z → string.
Variable percent_str : nat → nat → string.

Local Abbreviation safe_date_convert :=
  (Dates.safe_date_convert to_datetime to_datetime_Ym).
Local Abbreviation astype_str := (Dates.astype_str float_str datetime_str).
Local Abbreviation passes_filter := (Dates.passes_filter to_datetime now).
Local Abbreviation zone_free := (Dates.zone_free to_datetime).
Local Abbreviation clean_dates :=
  (Dates.clean_dates to_datetime to_datetime_Ym now float_str datetime_str
                     percent_str).
Local Abbreviation clean_dates_frames :=
  (DatesFacts.clean_dates_frames to_datetime to_datetime_Ym now float_str
                                 datetime_str percent_str).

Lemma passes_filter_true k x :
  passes_filter k x = true
  ↔ ∃ t, to_datetime x = Timestamp t ∧ (t ≤ now k)%Z.
Proof.
  unfold Dates.passes_filter.
  destruct (to_datetime x) as [t|t| |]; split; try done.
  - intros H. exists t. split; [done|]. by apply Z.leb_le.
  - intros (t' & [= <-] & H). by apply Z.leb_le.
  - by intros (t' & ? & _).
  - by intros (t & ? & _).
  - by intros (t & ? & _).
Qed.

(** X8: on a frame that has rows and no date text with a time zone, the
    rows the date cells keep are, in their old order, exactly the rows
    whose repaired date text the parser reads as a time that is not after
    the clock reading taken for the row; every other column has, row by
    row, the entries it had at the positions kept. *)
Theorem kept_rows_are_readable_and_past df0 s :
  columns df0 !! "Date" = Some s →
  (0 < size s)%nat →
  let dates := date_repair <$> astype_str s in
  Forall zone_free dates →
  ∃ r (kept : list nat),
    (clean_dates df0).1 = Ok r
    ∧ index (df r) `sublist_of` index df0
    ∧ (∀ i, i ∈ index (df r)
            ↔ ∃ k x t,
                index df0 !! k = Some i ∧ dates !! k = Some x
                ∧ to_datetime x = Timestamp t ∧ (t ≤ now k)%Z)
    ∧ StronglySorted lt kept
    ∧ (∀ k, k ∈ kept
            ↔ ∃ x t, dates !! k = Some x
                ∧ to_datetime x = Timestamp t ∧ (t ≤ now k)%Z)
    ∧ (length (index (df r)) ≤ length kept)%nat
    ∧ (∀ j k, kept !! j = Some k → index (df r) !! j = index df0 !! k)
    ∧ (∀ col, col ≠ "Date" →
         match columns df0 !! col with
         | Some s0 =>
             ∃ s1, columns (df r) !! col = Some s1
               ∧ (size s1 ≤ length kept)%nat
               ∧ ∀ j k, kept !! j = Some k → iloc s1 j = iloc s0 k
         | None => columns (df r) !! col = None
         end).
Proof.
  intros Hs Hrows dates Hzone.
  destruct (clean_dates_frames df0 s Hs Hrows Hzone)
    as (converted & printed & _ & Hrun).
  fold dates in Hrun. set (mask := imap passes_filter dates) in *.
  destruct (select_positions mask) as (kept & Hsorted & Hkept & Hsel).
  assert (Hmask : ∀ k, mask !! k = Some true
            ↔ ∃ x t, dates !! k = Some x
                ∧ to_datetime x = Timestamp t ∧ (t ≤ now k)%Z).
  { intros k. unfold mask. rewrite list_lookup_imap.
    destruct (dates !! k) as [x|] eqn:Hx; simpl.
    - split.
      + intros [= Hm]. apply passes_filter_true in Hm as (t & Ht & Hle).
        by exists x, t.
      + intros (x' & t & [= <-] & Ht & Hle). f_equal.
        apply passes_filter_true. by exists t.
    - split; [done|]. by intros (x & t & ? & _). }
  eexists _, kept. split; [by rewrite Hrun|].
  cbn [df index setitem boolean_index].
  split; [apply select_sublist|]. split.
  { intros i. split.
    - intros (k & Hk & Hm)%select_elem.
      apply Hmask in Hm as (x & t & Hx & Ht & Hle). by exists k, x, t.
    - intros (k & x & t & Hk & Hx & Ht & Hle).
      apply (select_keeps _ _ k); [done|]. apply Hmask. by exists x, t. }
  split; [done|]. split.
  { intros k. by rewrite Hkept, Hmask. }
  split; [apply Hsel|]. split; [apply Hsel|].
  intros col Hcol. cbn [columns setitem boolean_index].
  rewrite lookup_insert_ne, lookup_fmap, lookup_insert_ne by done.
  destruct (columns df0 !! col) as [s0|]; [|done]. simpl.
  eexists. split; [done|].
  destruct s0 as [l|l|l|l]; simpl; (split; [apply Hsel|]);
    intros j k Hk; by rewrite (proj2 (Hsel _ l) j k Hk).
Qed.

(** X9: the date cells keep a frame that has rows and no date text with a
    time zone well formed: in [df] and in [df_clean] every column is as
    long as the index, and [df] has the columns it had. *)
Theorem clean_dates_well_formed df0 s :
  well_formed df0 →
  columns df0 !! "Date" = Some s →
  (0 < size s)%nat →
  Forall zone_free (date_repair <$> astype_str s) →
  ∃ r,
    (clean_dates df0).1 = Ok r
    ∧ well_formed (df r)
    ∧ well_formed (df_clean r)
    ∧ dom (columns (df r)) = dom (columns df0).
Proof.
  intros Hwf Hs Hrows Hzone.
  destruct (clean_dates_frames df0 s Hs Hrows Hzone)
    as (converted & printed & Ha & Hrun).
  set (dates := date_repair <$> astype_str s) in *.
  set (mask := imap passes_filter dates) in *.
  assert (Hlen : length dates = length (index df0)).
  { unfold dates. rewrite length_fmap.
    rewrite (astype_str_length float_str datetime_str). by apply (Hwf "Date"). }
  assert (Hconv : length converted = length (select mask (index df0))).
  { assert (Hc : (apply safe_date_convert (Some <$> select mask dates)).1
                 = Ok converted) by (by rewrite Ha).
    apply apply_values, Forall2_length in Hc. rewrite length_fmap in Hc.
    rewrite <- Hc. by apply select_length. }
  assert (Hwf3 : well_formed
            (setitem (boolean_index
                        (setitem df0 "Date" (Text (Some <$> dates))) mask)
                     "Date" (Datetime converted))).
  { apply setitem_well_formed; [|done].
    apply boolean_index_well_formed, setitem_well_formed; [done|].
    simpl. by rewrite length_fmap. }
  eexists. split; [by rewrite Hrun|]. cbn [df df_clean].
  split; [done|]. split; [by apply boolean_index_well_formed|].
  cbn [columns setitem boolean_index].
  rewrite dom_insert_L, dom_fmap_L, dom_insert_L.
  assert (Hd : "Date" ∈ dom (columns df0))
    by (apply elem_of_dom; by eexists).
  apply set_eq. intros c. rewrite !elem_of_union, !elem_of_singleton.
  split; [intros [->|[->|?]]; done|auto].
Qed.

(** X10: on a frame that has rows and no date text with a time zone the
    date cells print two lines and no more.  The line of
    [safe_date_convert] for a date it cannot parse never comes: the filter
    before it has dropped every row whose date the fallback parser cannot
    read. *)
Theorem clean_dates_prints_two_lines df0 s :
  columns df0 !! "Date" = Some s →
  (0 < size s)%nat →
  Forall zone_free (date_repair <$> astype_str s) →
  ∃ r converted,
    (clean_dates df0).1 = Ok r
    ∧ columns (df r) !! "Date" = Some (Datetime converted)
    ∧ (clean_dates df0).2
      = ["Converting dates...";
         "Successfully converted "
         +:+ pretty (count_true (notna <$> converted)) +:+ " out of "
         +:+ pretty (length (index (df r))) +:+ " dates ("
         +:+ percent_str (count_true (notna <$> converted))
                         (length (index (df r)))
         +:+ ")"].
Proof.
  intros Hs Hrows Hzone.
  destruct (clean_dates_frames df0 s Hs Hrows Hzone)
    as (converted & printed & Ha & Hrun).
  set (dates := date_repair <$> astype_str s) in *.
  set (mask := imap passes_filter dates) in *.
  assert (Hsilent : printed = []).
  { change printed with (Ok converted, printed).2. rewrite <- Ha.
    apply apply_silent. intros o (x & -> & Hx)%list_elem_of_fmap.
    split; [|apply safe_date_convert_total].
    apply select_elem in Hx as (k & Hk & Hm).
    unfold mask in Hm. rewrite list_lookup_imap, Hk in Hm.
    injection Hm as Hm. apply passes_filter_true in Hm as (t & Ht & _).
    unfold Dates.safe_date_convert. rewrite Ht.
    destruct (_ || _); [done|]. by destruct (to_datetime_Ym x). }
  subst printed.
  eexists _, converted. split; [by rewrite Hrun|].
  rewrite Hrun. cbn [fst snd df index columns setitem boolean_index].
  split; [by rewrite lookup_insert_eq|done].
Qed.

(** X23: how the date cells fail.  Without a [Date] column the first cell
    raises [KeyError] and nothing is printed.  With a date text that the
    parser reads with a time zone the filter raises [TypeError], whatever
    the other rows hold, and nothing is printed.  On a frame without rows
    the filter leaves a frame without columns, and the next cell raises
    [KeyError] after its first line.  In every other case the cells run to
    their end. *)
Theorem clean_dates_failures df0 :
  (columns df0 !! "Date" = None →
   clean_dates df0 = (Raise (KeyError "Date"), []))
  ∧ (∀ s, columns df0 !! "Date" = Some s →
       Exists (λ x, ∃ t, to_datetime x = Aware t)
              (date_repair <$> astype_str s) →
       clean_dates df0 = (Raise TypeError, []))
  ∧ (∀ s, columns df0 !! "Date" = Some s → size s = 0%nat →
       clean_dates df0 = (Raise (KeyError "Date"), ["Converting dates..."]))
  ∧ (∀ s, columns df0 !! "Date" = Some s → (0 < size s)%nat →
       Forall zone_free (date_repair <$> astype_str s) →
       ∃ r, (clean_dates df0).1 = Ok r).
Proof.
  split; [|split; [|split]].
  - intros Hs. unfold Dates.clean_dates, getitem. by rewrite Hs.
  - intros s Hs Haware. unfold Dates.clean_dates, getitem.
    rewrite Hs, bind_ret.
    by rewrite (filter_raises to_datetime now _ _ Haware).
  - intros s Hs Hsize. unfold Dates.clean_dates, getitem.
    rewrite Hs, bind_ret.
    assert (Hd : date_repair <$> astype_str s = []).
    { apply length_zero_iff_nil.
      by rewrite length_fmap, (astype_str_length float_str datetime_str). }
    rewrite Hd. reflexivity.
  - intros s Hs Hrows Hzone.
    destruct (clean_dates_frames df0 s Hs Hrows Hzone)
      as (converted & printed & _ & Hrun).
    eexists. by rewrite Hrun.
Qed.

End DateCells.

Lemma example_dates_well_formed : well_formed example_dates.
Proof.
  intros col s H. unfold example_dates in H. cbn [columns] in H.
  apply lookup_singleton_Some in H as [_ <-]. reflexivity.
Qed.

Lemma kept_rows_are_readable_and_past_witness :
  ∃ r,
    example_clean_dates.1 = Ok r
    ∧ index (df r) `sublist_of` [0; 1; 2]%nat
    ∧ (0%nat ∈ index (df r)).
Proof.
  destruct (kept_rows_are_readable_and_past
              example_to_datetime example_to_datetime example_now
              (λ _, "") (λ _, "") (λ _ _, "") example_dates
              (Text [Some "2023-04"; Some "2999.01"; Some "soon"]) eq_refl
              (Nat.lt_0_succ 2) (example_zone_free _))
    as (r & kept & Hr & Hsub & Hin & _).
  exists r. split; [exact Hr|]. split; [exact Hsub|].
  apply Hin. exists 0%nat, "2023-04", 1680307200%Z.
  repeat split. vm_compute. discriminate.
Defined.

Lemma clean_dates_well_formed_witness :
  ∃ r, example_clean_dates.1 = Ok r
    ∧ well_formed (df r) ∧ well_formed (df_clean r)
    ∧ dom (columns (df r)) = dom (columns example_dates).
Proof.
  apply (clean_dates_well_formed
           example_to_datetime example_to_datetime example_now
           (λ _, "") (λ _, "") (λ _ _, "") example_dates
           (Text [Some "2023-04"; Some "2999.01"; Some "soon"])).
  - apply example_dates_well_formed.
  - reflexivity.
  - apply Nat.lt_0_succ.
  - apply example_zone_free.
Defined.

Lemma clean_dates_prints_two_lines_witness :
  ∃ r converted,
    example_clean_dates.1 = Ok r
    ∧ columns (df r) !! "Date" = Some (Datetime converted)
    ∧ example_clean_dates.2
      = ["Converting dates...";
         "Successfully converted "
         +:+ pretty (count_true (notna <$> converted)) +:+ " out of "
         +:+ pretty (length (index (df r))) +:+ " dates ("
         +:+ "" +:+ ")"].
Proof.
  apply (clean_dates_prints_two_lines
           example_to_datetime example_to_datetime example_now
           (λ _, "") (λ _, "") (λ _ _, "") example_dates
           (Text [Some "2023-04"; Some "2999.01"; Some "soon"])).
  - reflexivity.
  - apply Nat.lt_0_succ.
  - apply example_zone_free.
Defined.

Example example_clean_dates_lines :
  example_clean_dates.2
  = ["Converting dates..."; "Successfully converted 1 out of 1 dates ()"].
Proof. vm_compute. reflexivity. Qed.

(** A date text with a time zone anywhere in the column stops the run, and
    so does a frame without rows. *)
Example clean_dates_with_a_time_zone :
  clean_dates example_to_datetime_zone example_to_datetime_zone example_now
    (λ _, "") (λ _, "") (λ _ _, "")
    (mk_frame [0; 1]%nat
       {[ "Date" := Text [Some "2023-04";
                          Some "2023-04-01 00:00:00+00:00"] ]})
  = (Raise TypeError, [])
  ∧ clean_dates example_to_datetime example_to_datetime example_now
      (λ _, "") (λ _, "") (λ _ _, "")
      (mk_frame [] {[ "Date" := Text [] ]})
    = (Raise (KeyError "Date"), ["Converting dates..."]).
Proof. split; vm_compute; reflexivity. Qed.

End DatesLaws.

(** ** More on the fuzzy corrector: whole columns *)
Module FuzzyLaws.
Import Python PythonFacts Fuzzy FuzzyColumns FuzzyFacts.

Lemma apply_Forall2 {A B} (f : A → Py B) (R : A → B → Prop) l :
  (∀ x, x ∈ l → ∃ y, (f x).1 = Ok y ∧ R x y) →
  ∃ ys, (apply f l).1 = Ok ys ∧ Forall2 R l ys.
Proof.
  induction l as [|x l IH]; intros H; [by exists []|].
  destruct (H x ltac:(left)) as (y & Hy & HR).
  destruct IH as (ys & Hys & HF); [intros; apply H; by right|].
  exists (y :: ys). simpl. rewrite (bind_ok _ _ _ Hy). simpl.
  rewrite (bind_ok _ _ _ Hys). simpl. split; [done|]. by constructor.
Qed.

(** The lines [apply] prints are those of its calls, in order, up to the
    first call that raises. *)
Lemma apply_lines_ok {A B} (f : A → Py B) l :
  (∀ x, x ∈ l → ∃ y, (f x).1 = Ok y) →
  (apply f l).2 = concat ((λ x, (f x).2) <$> l).
Proof.
  induction l as [|x l IH]; intros H; [done|]. cbn [apply].
  destruct (H x ltac:(left)) as [y Hy].
  rewrite (bind_ok _ _ _ Hy), fmap_cons, concat_cons. cbn [snd]. f_equal.
  rewrite <- IH by (intros; apply H; by right).
  destruct (apply f l).1 as [ys|e] eqn:El.
  - rewrite (bind_ok _ _ _ El). simpl. by rewrite app_nil_r.
  - by rewrite (bind_raise _ _ _ El).
Qed.

Section Corrector.

Variable scorer : string → string → N.

(** X11: with a reference list that is not empty the corrector runs over
    the whole column: the result has an entry for each entry, a missing
    entry stays missing and a name stays a name. *)
Theorem correct_column_keeps_shape column c cs :
  ∃ out,
    (correct_column scorer column (c :: cs)).1 = Ok out
    ∧ length out = length column
    ∧ ∀ k, out !! k = Some None ↔ column !! k = Some None.
Proof.
  destruct (apply_Forall2
              (λ x, correct_station_from_top scorer x (c :: cs)
                                             default_threshold)
              (λ x y, y = None ↔ x = None) column)
    as (out & Hout & HF).
  { intros [name|] _; [|by exists None].
    destruct (extractOne_best scorer name c cs) as (m & sc & He & _).
    rewrite (correct_after_extract _ _ _ _ _ _ He).
    destruct (sc <? default_threshold)%N; eexists; (split; [done|]); done. }
  exists out. split; [done|]. split; [by rewrite (Forall2_length _ _ _ HF)|].
  intros k. split; intros Hk.
  - destruct (Forall2_lookup_r _ _ _ _ _ HF Hk) as (x & Hx & Hxy).
    rewrite Hx. f_equal. by apply Hxy.
  - destruct (Forall2_lookup_l _ _ _ _ _ HF Hk) as (y & Hy & Hxy).
    rewrite Hy. f_equal. by apply Hxy.
Qed.

(** X12: with an empty reference list the corrector returns a column of
    missing entries as it is and raises [TypeError] as soon as the column
    holds a name; either way it prints nothing. *)
Theorem correct_column_empty_list column :
  correct_column scorer column []
  = (if forallb (λ x : option string, bool_decide (x = None)) column
     then Ok column else Raise TypeError, []).
Proof.
  unfold correct_column.
  induction column as [|[name|] column IH]; simpl; [done|done|].
  rewrite bind_ret, IH.
  by destruct (forallb _ column).
Qed.

(** X13: with a reference list that is not empty the corrector prints one
    line for each name of the column whose best score is under 75, the
    names it leaves as they are, and none for the names it replaces. *)
Theorem correct_column_line_count column c cs :
  length (correct_column scorer column (c :: cs)).2
  = length (filter (λ x, left_for_lack_of_match scorer (c :: cs)
                           default_threshold x = true) column).
Proof.
  unfold correct_column. rewrite apply_lines_ok.
  - induction column as [|x column IH]; [done|].
    rewrite fmap_cons, concat_cons, length_app, IH. clear IH.
    destruct x as [name|].
    + destruct (extractOne_best scorer name c cs) as (m & sc & He & _).
      rewrite (correct_after_extract _ _ _ _ _ _ He).
      assert (Hl : left_for_lack_of_match scorer (c :: cs) default_threshold
                     (Some name) = (sc <? default_threshold)%N).
      { unfold left_for_lack_of_match. cbn [mbind option_bind].
        by rewrite He. }
      destruct (sc <? default_threshold)%N eqn:E.
      * by rewrite filter_cons_True by (by rewrite Hl).
      * by rewrite filter_cons_False by (by rewrite Hl).
    + by rewrite filter_cons_False by done.
  - intros [name|] _; [|by exists None].
    destruct (extractOne_best scorer name c cs) as (m & sc & He & _).
    rewrite (correct_after_extract _ _ _ _ _ _ He).
    destruct (sc <? default_threshold)%N; by eexists.
Qed.

End Corrector.

End FuzzyLaws.

(** ** More on the numeric sanitizer: reruns and the shape of the frame *)
Module SanitizerLaws.
Import Python PythonFacts Float FloatFacts Frame Sanitizer SanitizerSettled
       SanitizerFacts.

Lemma any_fmap_false {A} (p : A → bool) v :
  Forall (λ x, p x = false) v → any (p <$> v) = false.
Proof.
  unfold any. induction 1 as [|x v Hx _ IH]; [done|]. simpl.
  rewrite Hx. exact IH.
Qed.

Lemma leb_not_gtb x y : leb x y = true → gtb x y = false.
Proof.
  intros H. unfold gtb. destruct (ltb y x) eqn:E; [|done].
  apply ltb_not_leb in E. congruence.
Qed.

Lemma to_numeric_length str_to_float s :
  length (to_numeric str_to_float s) = size s.
Proof. destruct s; simpl; by rewrite ?length_fmap. Qed.

Section Cleanup.

Variable str_to_float : string → option float.

(** A value the sanitizer would not change sets off none of its tests. *)
Lemma fixed_value_tests col x :
  sanitize_value col x = x →
  ltb x (Fin 0) = false
  ∧ (contains "Average" col = true → gtb x (Fin 500) = false)
  ∧ (contains "Pct" col = true → gtb x (Fin 100) = false).
Proof.
  intros Hx.
  pose proof (sanitize_value_not_negative col x) as Hn.
  pose proof (sanitize_value_average col x) as Ha.
  pose proof (sanitize_value_percentage col x) as Hp.
  rewrite Hx in Hn, Ha, Hp. split; [done|]. split.
  - intros Hc. destruct (isna x) eqn:En; [by destruct x|].
    apply leb_not_gtb, Ha; [done|]. unfold missing. congruence.
  - intros Hc. destruct (Hp Hc) as [Hm|[_ H100]]; [by destruct x|].
    by apply leb_not_gtb.
Qed.

(** On a column of numbers that it would not change, the loop body does
    nothing and prints nothing. *)
Lemma clean_numeric_column_fixed col v :
  Forall (λ x, sanitize_value col x = x) v →
  clean_numeric_column str_to_float col (Float64 v) = (Ok v, []).
Proof.
  intros Hv. unfold clean_numeric_column. cbn [to_numeric].
  assert (H0 : any ((λ x, ltb x (Fin 0)) <$> v) = false).
  { apply any_fmap_false. eapply Forall_impl; [exact Hv|].
    intros x Hx. by apply (fixed_value_tests col). }
  rewrite H0, bind_ret.
  assert (H5 : contains "Average" col = true →
               any ((λ x, gtb x (Fin 500)) <$> v) = false).
  { intros Hc. apply any_fmap_false. eapply Forall_impl; [exact Hv|].
    intros x Hx. by apply (fixed_value_tests col). }
  assert (H1 : contains "Pct" col = true →
               any ((λ x, gtb x (Fin 100)) <$> v) = false).
  { intros Hc. apply any_fmap_false. eapply Forall_impl; [exact Hv|].
    intros x Hx. by apply (fixed_value_tests col). }
  destruct (contains "Average" col).
  - rewrite H5 by done. rewrite bind_ret.
    destruct (contains "Pct" col); [|done].
    rewrite H1 by done. rewrite bind_ret. by rewrite H0.
  - rewrite bind_ret. destruct (contains "Pct" col); [|done].
    rewrite H1 by done. rewrite bind_ret. by rewrite H0.
Qed.

Lemma clean_step_settled df col :
  settled df → col ∈ numeric_columns →
  clean_step str_to_float df col = (Ok df, []).
Proof.
  intros Hs Hcol. unfold clean_step.
  destruct (columns df !! col) as [s|] eqn:E; [|done].
  destruct (Hs col s Hcol E) as (v & -> & Hv).
  rewrite (clean_numeric_column_fixed col v Hv).
  unfold py_bind, py_ret, setitem. cbn [fst snd]. do 2 f_equal.
  destruct df as [i c]. simpl in *. f_equal. by apply insert_id.
Qed.

Lemma for_each_settled df cols :
  settled df → cols ⊆ numeric_columns →
  for_each (clean_step str_to_float) df cols = (Ok df, []).
Proof.
  intros Hs. induction cols as [|col cols IH]; intros Hsub; [done|].
  simpl. rewrite clean_step_settled; [|done|apply Hsub; left].
  change (@pair (outcome frame) (list string) (Ok df) []) with (py_ret df).
  rewrite bind_ret.
  apply IH. intros c Hc. apply Hsub. by right.
Qed.

(** X4: the loop runs to its end on every frame, and a second run on its
    result changes nothing and prints nothing. *)
Theorem clean_numeric_columns_settles df :
  ∃ df',
    (clean_numeric_columns str_to_float df).1 = Ok df'
    ∧ clean_numeric_columns str_to_float df' = (Ok df', []).
Proof.
  destruct (clean_numeric_columns_value str_to_float df)
    as (df' & Hok & _ & Hl).
  exists df'. split; [done|].
  apply for_each_settled; [|done].
  intros col s Hcol Hs. rewrite Hl, decide_True in Hs by done.
  destruct (columns df !! col) as [s0|]; [|done].
  injection Hs as <-. eexists. split; [done|].
  apply Forall_fmap, Forall_true. intros x. simpl.
  apply sanitize_value_idempotent.
Qed.

(** X14: the loop keeps the shape of the frame: the same rows, the same
    columns, each column as long as before, so a well-formed frame stays
    well formed; and a column that is not declared numeric keeps its
    content. *)
Theorem clean_numeric_columns_shape df :
  ∃ df',
    (clean_numeric_columns str_to_float df).1 = Ok df'
    ∧ index df' = index df
    ∧ dom (columns df') = dom (columns df)
    ∧ (∀ col s s', columns df !! col = Some s →
                   columns df' !! col = Some s' → size s' = size s)
    ∧ (∀ col, col ∉ numeric_columns →
              columns df' !! col = columns df !! col)
    ∧ (well_formed df → well_formed df').
Proof.
  destruct (clean_numeric_columns_value str_to_float df)
    as (df' & Hok & Hi & Hl).
  assert (Hsize : ∀ col s s', columns df !! col = Some s →
                    columns df' !! col = Some s' → size s' = size s).
  { intros col s s' Hs Hs'. rewrite Hl, Hs in Hs'.
    destruct (decide (col ∈ numeric_columns)); simpl in Hs';
      injection Hs' as <-; [|done].
    simpl. by rewrite length_fmap, to_numeric_length. }
  assert (Hsome : ∀ col, is_Some (columns df' !! col)
                         ↔ is_Some (columns df !! col)).
  { intros col. rewrite Hl.
    destruct (decide (col ∈ numeric_columns)); [|done].
    by rewrite fmap_is_Some. }
  exists df'. split; [done|]. split; [done|]. split.
  { apply set_eq. intros col. by rewrite !elem_of_dom. }
  split; [done|]. split.
  { intros col Hcol. by rewrite Hl, decide_False. }
  intros Hwf col s' Hs'.
  destruct (proj1 (Hsome col) (mk_is_Some _ _ Hs')) as [s Hs].
  rewrite (Hsize col s s' Hs Hs'), Hi. by apply (Hwf col).
Qed.

End Cleanup.

End SanitizerLaws.

(** ** The delay categories *)
Module DelayCategoryFacts.
Import Python PythonFacts Float FloatFacts Frame Features DelayCategory.

(** [Is_Significantly_Delayed] is, row by row, the column the last cell
    adds. *)
Lemma flag_column_is_Is_Significantly_Delayed df v :
  columns df !! arrival_delay = Some (Float64 v) →
  flag_significant_delays df
  = py_ret (setitem df "Is_Significantly_Delayed"
                    (Int64 (Is_Significantly_Delayed <$> v))).
Proof.
  intros Hv. unfold flag_significant_delays, getitem. rewrite Hv, bind_ret.
  change (series_gt (Float64 v) 15)
    with (py_ret ((λ x, gtb x (of_Z 15)) <$> v)).
  rewrite bind_ret. unfold astype_int. rewrite <- list_fmap_compose.
  reflexivity.
Qed.

Lemma count_cons {A} (p : A → bool) x l :
  length (filter (λ b, p b = true) (x :: l))
  = ((if p x then 1 else 0) + length (filter (λ b, p b = true) l))%nat.
Proof.
  destruct (p x) eqn:E.
  - by rewrite filter_cons_True.
  - rewrite filter_cons_False; [done|]. congruence.
Qed.

(** X15: the category of a delay: none for a missing delay (and for minus
    infinity, which lies in no interval), "Minimal" up to 5, "Moderate"
    over 5 and up to 15, "Significant" over 15 and up to 30, "Severe" over
    30; each bound belongs to the category under it. *)
Theorem delay_category_ranges x :
  Delay_Category x
  = if isna x || negb (ltb NegInf x) then None
    else if leb x (Fin 5) then Some "Minimal"
    else if leb x (Fin 15) then Some "Moderate"
    else if leb x (Fin 30) then Some "Significant"
    else Some "Severe".
Proof.
  destruct x as [| |q|]; try reflexivity.
  unfold Delay_Category, cut, searchsorted_left, delay_bins.
  cbn [isna orb]. rewrite !(count_cons (λ b, ltb b (Fin q))).
  cbn [ltb leb negb].
  destruct (Qle_bool q 5) eqn:E5, (Qle_bool q 15) eqn:E15,
           (Qle_bool q 30) eqn:E30;
    try reflexivity; exfalso; to_Q; lra.
Qed.

(** X16: the flag and the category agree on every delay: the flag is 1
    exactly when the category is "Significant" or "Severe". *)
Theorem significant_flag_matches_category x :
  Is_Significantly_Delayed x = 1%Z
  ↔ Delay_Category x = Some "Significant" ∨ Delay_Category x = Some "Severe".
Proof.
  rewrite delay_category_ranges. unfold Is_Significantly_Delayed, gtb, of_Z.
  destruct x as [| |q|]; simpl; try (split; [done|by intros [|]]).
  - change (inject_Z 15) with 15%Q.
    destruct (Qle_bool q 5) eqn:E5, (Qle_bool q 15) eqn:E15,
             (Qle_bool q 30) eqn:E30;
      simpl; try (split; [done|by intros [|]]); try (split; auto; done);
      exfalso; to_Q; lra.
  - split; auto.
Qed.

Example delay_category_bounds :
  Delay_Category (Fin 5) = Some "Minimal"
  ∧ Delay_Category (Fin 15) = Some "Moderate"
  ∧ Delay_Category (Fin (31 # 2)) = Some "Significant"
  ∧ Delay_Category (Fin 30) = Some "Significant"
  ∧ Delay_Category PosInf = Some "Severe"
  ∧ Delay_Category NaN = None.
Proof. by vm_compute. Qed.

End DelayCategoryFacts.

(** ** The model notebook: choosing, tuning, saving *)
Module ModelNotebookFacts.
Import Float FloatFacts ModelSelection ModelSelectionFacts ModelNotebook.

Lemma min_from_stays {A} (key : A → float) best l :
  Forall (λ y, ltb (key y) (key best) = false) l →
  min_from key best l = best.
Proof.
  induction 1 as [|y l Hy _ IH]; [done|]. simpl. by rewrite Hy.
Qed.

Ltac find_event :=
  match goal with
  | |- _ ∈ _ ++ _ =>
      apply elem_of_app; first [left; find_event | right; find_event]
  | |- _ ∈ _ :: _ => first [by left | right; find_event]
  end.

Ltac not_among H :=
  repeat (apply elem_of_cons in H as [H|H]; [discriminate H|]);
  by apply elem_of_nil in H.

Section Cells.

Variable rmse_of : string → float.
Variable grid_search
  : string → list (string * list param) → search_result + exn.
Variable comparison_chart : option exn.
Variable draw : string → model → option exn.
Variable fmt2 : float → string.
Variable numerical_features categorical_features : list string.

Local Abbreviation choose_tune_save :=
  (ModelNotebook.choose_tune_save rmse_of grid_search comparison_chart draw
     fmt2 numerical_features categorical_features).

(** Linear Regression, the first candidate, is chosen exactly when none of
    the other three has a smaller RMSE. *)
Lemma linear_regression_chosen_iff :
  ModelSelection.best_model_name rmse_of = Some "Linear Regression"
  ↔ Forall (λ name, ltb (rmse_of name) (rmse_of "Linear Regression") = false)
           ["Decision Tree"; "Random Forest"; "Gradient Boosting"].
Proof.
  unfold ModelSelection.best_model_name, model_names, py_min. split.
  - intros H. apply (inj Some) in H. apply Forall_forall. intros name Hname.
    pose proof (min_from_lower rmse_of "Linear Regression"
                  ["Decision Tree"; "Random Forest"; "Gradient Boosting"]
                  name) as Hl.
    rewrite H in Hl. apply Hl. by right.
  - intros H. f_equal. by apply min_from_stays.
Qed.

Lemma and_then_ext {A B} (m : (A + exn) * list event)
      (k k' : A → (B + exn) * list event) :
  (∀ a, k a = k' a) → and_then m k = and_then m k'.
Proof. intros H. unfold and_then. destruct m.1; by rewrite ?H. Qed.

Lemma and_then_inl {A B} (a : A) l (k : A → (B + exn) * list event) :
  and_then (inl a, l) k = ((k a).1, l ++ (k a).2).
Proof. done. Qed.

Lemma and_then_inr {A B} (e : exn) l (k : A → (B + exn) * list event) :
  and_then (inr e, l) k = (inr e, l).
Proof. done. Qed.

(** The tuning cell: it skips a model without a grid, reports what the
    search finds, and ends with the exception of a search that raises. *)
Lemma tuning_cell_skipped g :
  param_grid (best_model_name g) = [] →
  tuning_cell grid_search fmt2 g
  = (inl g,
     [Printed (nl +:+ "Fine-tuning the best model...");
      Printed "Skipping hyperparameter tuning for Linear Regression."]).
Proof. intros H. unfold tuning_cell. by rewrite H. Qed.

Lemma param_grid_of_the_others name :
  name ∈ model_names → name ≠ "Linear Regression" → param_grid name ≠ [].
Proof.
  unfold model_names. intros Hin Hne.
  repeat (apply elem_of_cons in Hin as [->|Hin]); try done.
  by apply elem_of_nil in Hin.
Qed.

Lemma tuning_cell_found g found :
  param_grid (best_model_name g) ≠ [] →
  grid_search (best_model_name g) (param_grid (best_model_name g))
  = inl found →
  tuning_cell grid_search fmt2 g
  = (inl (mk_globals (best_model_name g) (Tuned (best_model_name g))
                     (Some (tuned_rmse found)) (Some (tuned_r2 found))),
     [Printed (nl +:+ "Fine-tuning the best model...");
      Printed ("Best parameters: " +:+ best_params_ found);
      Printed ("Best cross-validation score: " +:+ fmt2 (cv_score found));
      Printed ("Tuned model - RMSE: " +:+ fmt2 (tuned_rmse found)
               +:+ ", R²: " +:+ fmt2 (tuned_r2 found))]).
Proof.
  intros Hne Hfound. unfold tuning_cell. cbv zeta. rewrite Hfound.
  by destruct (param_grid (best_model_name g)).
Qed.

Lemma tuning_cell_raises g e :
  param_grid (best_model_name g) ≠ [] →
  grid_search (best_model_name g) (param_grid (best_model_name g)) = inr e →
  tuning_cell grid_search fmt2 g
  = (inr e, [Printed (nl +:+ "Fine-tuning the best model...")]).
Proof.
  intros Hne He. unfold tuning_cell. cbv zeta. rewrite He.
  by destruct (param_grid (best_model_name g)).
Qed.

(** The run once the best model is known and the charts are drawn. *)
Lemma choose_tune_save_run best :
  comparison_chart = None →
  (∀ file m, draw file m = None) →
  ModelSelection.best_model_name rmse_of = Some best →
  choose_tune_save
  = and_then
      (inl (mk_globals best (Evaluated best) None None),
       [Savefig "model_comparison.png";
        Printed (nl +:+ "Best model: " +:+ best +:+ " with RMSE: "
                 +:+ fmt2 (rmse_of best))])
      (λ g, and_then
              (tuning_cell grid_search fmt2 g)
              (λ g, and_then
                      (inl tt,
                       (if bool_decide
                             (best_model_name g
                              ∈ ["Random Forest"; "Gradient Boosting";
                                 "Decision Tree"])
                        then [Savefig "feature_importance.png"] else [])
                       ++ [Savefig "actual_vs_predicted.png"])
                      (λ _, save_cell numerical_features
                                      categorical_features g))).
Proof.
  intros Hchart Hdraw Hbest.
  unfold ModelNotebook.choose_tune_save.
  rewrite (and_then_ext _ _ (λ g, and_then (tuning_cell grid_search fmt2 g)
             (λ g, and_then
                (inl tt,
                 (if bool_decide
                       (best_model_name g
                        ∈ ["Random Forest"; "Gradient Boosting";
                           "Decision Tree"])
                  then [Savefig "feature_importance.png"] else [])
                 ++ [Savefig "actual_vs_predicted.png"])
                (λ _, save_cell numerical_features categorical_features g)))).
  - f_equal. unfold choose_cell. by rewrite Hchart, Hbest.
  - intros g0. apply and_then_ext. intros g. f_equal.
    unfold charts_cells. rewrite !Hdraw.
    by destruct (bool_decide _).
Qed.

(** X17: in a fresh run in which the charts are drawn, the last cell saves
    the model and then fails with [NameError] on the name [rmse] exactly
    when Linear Regression is the best model, that is when no other
    candidate has a smaller RMSE: the tuning cell, which alone binds [rmse]
    and [r2], skips that model.  Then [tardis_model.pkl] is written and
    [model_info.pkl] is not.  When another model is best and the grid
    search finds a result, the run ends well, the tuned model is pickled,
    and [model_info.pkl] names the best model with the RMSE and R² of the
    tuned model; when the grid search raises, the run ends with its
    exception and nothing is pickled. *)
Theorem save_fails_when_linear_regression_wins :
  comparison_chart = None →
  (∀ file m, draw file m = None) →
  ∃ best,
    ModelSelection.best_model_name rmse_of = Some best
    ∧ best ∈ model_names
    ∧ (best = "Linear Regression"
       ↔ Forall (λ name, ltb (rmse_of name)
                             (rmse_of "Linear Regression") = false)
                ["Decision Tree"; "Random Forest"; "Gradient Boosting"])
    ∧ (best = "Linear Regression" →
       choose_tune_save.1 = inr (NameError "rmse")
       ∧ PickledModel "tardis_model.pkl" (Evaluated best)
         ∈ choose_tune_save.2
       ∧ ∀ file info, PickledInfo file info ∉ choose_tune_save.2)
    ∧ (best ≠ "Linear Regression" →
       ∀ found, grid_search best (param_grid best) = inl found →
       choose_tune_save.1 = inl tt
       ∧ PickledModel "tardis_model.pkl" (Tuned best) ∈ choose_tune_save.2
       ∧ PickledInfo "model_info.pkl"
           (mk_info best numerical_features categorical_features
              ModelNotebook.target (tuned_rmse found) (tuned_r2 found))
         ∈ choose_tune_save.2)
    ∧ (best ≠ "Linear Regression" →
       ∀ e, grid_search best (param_grid best) = inr e →
       choose_tune_save.1 = inr e
       ∧ (∀ file m, PickledModel file m ∉ choose_tune_save.2)
       ∧ ∀ file info, PickledInfo file info ∉ choose_tune_save.2).
Proof.
  intros Hchart Hdraw.
  destruct (py_min_first rmse_of model_names ltac:(done))
    as (best & pre & post & Hbest & Hlist & _).
  assert (Hin : best ∈ model_names).
  { rewrite Hlist. apply elem_of_app. right. left. }
  assert (Hname : ModelSelection.best_model_name rmse_of = Some best).
  { unfold ModelSelection.best_model_name. by rewrite Hbest. }
  exists best. split; [done|]. split; [done|]. split.
  { rewrite <- linear_regression_chosen_iff. rewrite Hname.
    split; [by intros ->|by intros [= ->]]. }
  rewrite (choose_tune_save_run best Hchart Hdraw Hname).
  clear Hbest Hlist Hname. rewrite and_then_inl.
  split; [|split].
  - intros ->. rewrite tuning_cell_skipped by done.
    rewrite !and_then_inl. vm_compute.
    split; [reflexivity|]. split; [by repeat first [left|right]|].
    intros file info H. not_among H.
  - intros Hne found Hfound.
    rewrite (tuning_cell_found (mk_globals best (Evaluated best) None None)
               found (param_grid_of_the_others best Hin Hne) Hfound).
    rewrite !and_then_inl. cbn [save_cell rmse r2 best_model best_model_name
                                 fst snd].
    split; [done|].
    split; find_event.
  - intros Hne e He.
    rewrite (tuning_cell_raises (mk_globals best (Evaluated best) None None)
               e (param_grid_of_the_others best Hin Hne) He).
    rewrite and_then_inr. cbn [fst snd]. split; [done|].
    split; [intros file m H|intros file info H]; simpl in H; not_among H.
Qed.

End Cells.

Lemma save_fails_when_linear_regression_wins_witness :
  (ModelNotebook.choose_tune_save example_rmse_of example_grid_search None
     (λ _ _, None) (λ _, "") [] []).1
  = inl tt.
Proof.
  destruct (save_fails_when_linear_regression_wins
              example_rmse_of example_grid_search None (λ _ _, None)
              (λ _, "") [] [] eq_refl (λ _ _, eq_refl))
    as (best & Hbest & _ & _ & _ & Hok & _).
  assert (best = "Random Forest") as ->
    by (vm_compute in Hbest; congruence).
  destruct (Hok ltac:(discriminate) _ eq_refl) as [Hrun _]. exact Hrun.
Defined.

(** A grid search that raises ends the run before anything is saved. *)
Example choose_tune_save_search_raises :
  ModelNotebook.choose_tune_save example_rmse_of (λ _ _, inr ValueError) None
    (λ _ _, None) (λ _, "") [] []
  = (inr ValueError,
     [Savefig "model_comparison.png";
      Printed (nl +:+ "Best model: Random Forest with RMSE: ");
      Printed (nl +:+ "Fine-tuning the best model...")]).
Proof. vm_compute. reflexivity. Qed.

End ModelNotebookFacts.

(** ** The normalizer of names *)
Module NormalizerFacts.
Import Normalizer.

Example normalize_examples :
  normalize_station_name (Some "  paris   gare de LYON ")
  = Some "Paris Gare De Lyon"
  ∧ normalize_station_name (Some "st-pierre des corps")
    = Some "St-Pierre Des Corps"
  ∧ normalize_station_name (Some "   ") = Some ""
  ∧ normalize_station_name None = None.
Proof. by vm_compute. Qed.

(** *** Characters: by inspection of all 256 *)
Ltac all_characters c :=
  destruct c as [[] [] [] [] [] [] [] []]; vm_compute; reflexivity.

Lemma title_char_cased b c : cased (title_char b c) = cased c.
Proof. destruct b; all_characters c. Qed.

Lemma title_char_idempotent b c :
  title_char b (title_char b c) = title_char b c.
Proof. destruct b; all_characters c. Qed.

Lemma title_char_space b c : is_space (title_char b c) = is_space c.
Proof. destruct b; all_characters c. Qed.

Lemma title_char_ascii b c : is_ascii (title_char b c) = is_ascii c.
Proof. destruct b; all_characters c. Qed.

(** *** [title] *)
Lemma title_from_cons b c s :
  title_from b (String c s)
  = String (title_char b c) (title_from (cased c) s).
Proof. simpl. unfold title_char, cased. by destruct (is_lower c || is_upper c). Qed.

Lemma title_from_idempotent b s :
  title_from b (title_from b s) = title_from b s.
Proof.
  revert b. induction s as [|c s IH]; intros b; [done|].
  rewrite !title_from_cons, title_char_idempotent, title_char_cased.
  by rewrite IH.
Qed.

Lemma title_from_empty b s : title_from b s = "" ↔ s = "".
Proof. destruct s; [done|]. by rewrite title_from_cons. Qed.

(** *** [split] *)
Lemma cons_word_title w ws :
  cons_word (title w) (title <$> ws) = title <$> cons_word w ws.
Proof.
  unfold cons_word. destruct (decide (w = "")) as [->|Hw].
  - done.
  - rewrite !bool_decide_eq_false_2; [done..|].
    unfold title. by rewrite title_from_empty.
Qed.

Lemma split_head_title b s :
  split_head (title_from b s)
  = (title_from b (split_head s).1, title <$> (split_head s).2).
Proof.
  revert b. induction s as [|c s IH]; intros b; [done|].
  rewrite title_from_cons. cbn [split_head].
  rewrite IH, title_char_space. destruct (split_head s) as [w ws].
  cbn [fst snd]. destruct (is_space c) eqn:Ec.
  - cbn [fst snd title_from]. f_equal.
    assert (Hc : cased c = false)
      by (revert Ec; clear; destruct c as [[] [] [] [] [] [] [] []];
          vm_compute; congruence).
    rewrite Hc. apply cons_word_title.
  - cbn [fst snd]. by rewrite title_from_cons.
Qed.

Lemma split_title s : split (title s) = title <$> split s.
Proof.
  unfold split, title. rewrite split_head_title.
  destruct (split_head s) as [w ws]. apply cons_word_title.
Qed.

Lemma split_head_rstrip s : split_head (rstrip s) = split_head s.
Proof.
  induction s as [|c s IH]; [done|]. cbn [rstrip].
  destruct (is_space c) eqn:Ec; cbn [andb].
  - case_bool_decide as Hr.
    + cbn [split_head]. rewrite <- IH, Hr, Ec. done.
    + cbn [split_head]. by rewrite IH.
  - cbn [split_head]. by rewrite IH.
Qed.

Lemma cons_word_empty ws : cons_word "" ws = ws.
Proof. done. Qed.

Lemma split_lstrip s : split (lstrip s) = split s.
Proof.
  induction s as [|c s IH]; [done|]. cbn [lstrip].
  destruct (is_space c) eqn:Ec; [|done].
  rewrite IH. unfold split. cbn [split_head]. rewrite Ec.
  by destruct (split_head s).
Qed.

Lemma split_strip s : split (strip s) = split s.
Proof.
  rewrite <- (split_lstrip s). unfold strip, split.
  by rewrite split_head_rstrip.
Qed.

Lemma split_head_words s :
  no_space (split_head s).1 ∧ Forall word (split_head s).2.
Proof.
  induction s as [|c s [Hw Hws]]; [by split; constructor|].
  cbn [split_head]. destruct (split_head s) as [w ws]. cbn [fst snd] in *.
  destruct (is_space c) eqn:Ec; cbn [fst snd].
  - split; [constructor|]. unfold cons_word.
    case_bool_decide; [done|]. by constructor.
  - split; [by constructor|done].
Qed.

Lemma split_words s : Forall word (split s).
Proof.
  unfold split. pose proof (split_head_words s) as [Hw Hws].
  destruct (split_head s) as [w ws]. unfold cons_word.
  case_bool_decide; [done|]. by constructor.
Qed.

Lemma app_empty_l (s : string) : "" +:+ s = s.
Proof. done. Qed.

Lemma app_String c (w s : string) : String c w +:+ s = String c (w +:+ s).
Proof. done. Qed.

Lemma split_head_word_app w s :
  no_space w →
  split_head (w +:+ s) = (w +:+ (split_head s).1, (split_head s).2).
Proof.
  induction w as [|c w IH]; intros Hw.
  - rewrite !app_empty_l. by destruct (split_head s).
  - apply Forall_cons in Hw as [Hc Hw]. rewrite !app_String.
    cbn [split_head]. rewrite (IH Hw), Hc. done.
Qed.

Lemma app_empty_r (w : string) : w +:+ "" = w.
Proof.
  induction w as [|c w IH]; [done|]. by rewrite app_String, IH.
Qed.

Lemma join_cons w w' ws :
  join " " (w :: w' :: ws) = w +:+ " " +:+ join " " (w' :: ws).
Proof. done. Qed.

(** Splitting what was joined gives the words back. *)
Lemma split_join ws : Forall word ws → split (join " " ws) = ws.
Proof.
  induction 1 as [|w ws [Hne Hw] Hws IH]; [done|].
  destruct ws as [|w' ws].
  - unfold split. cbn [join String.concat].
    rewrite <- (app_empty_r w) at 1.
    rewrite split_head_word_app by done. cbn [split_head fst snd].
    rewrite app_empty_r. unfold cons_word. by rewrite bool_decide_eq_false_2.
  - rewrite join_cons. unfold split in *.
    rewrite split_head_word_app by done.
    change (split_head (" " +:+ join " " (w' :: ws)))
      with (let '(w0, ws0) := split_head (join " " (w' :: ws)) in
            ("", cons_word w0 ws0)).
    destruct (split_head (join " " (w' :: ws))) as [w0 ws0].
    cbn [fst snd]. rewrite app_empty_r, IH.
    unfold cons_word. by rewrite bool_decide_eq_false_2.
Qed.

Lemma title_word b w : word w → word (title_from b w).
Proof.
  intros [Hne Hw]. split; [by rewrite title_from_empty|].
  clear Hne. revert b. induction w as [|c w IH]; intros b; [constructor|].
  apply Forall_cons in Hw as [Hc Hw]. rewrite title_from_cons.
  constructor; [by rewrite title_char_space|by apply IH].
Qed.

(** *** ASCII text stays ASCII *)
Lemma title_from_ascii b s : ascii_text s → ascii_text (title_from b s).
Proof.
  unfold ascii_text. revert b.
  induction s as [|c s IH]; intros b H; [constructor|].
  apply Forall_cons in H as [Hc H]. rewrite title_from_cons.
  constructor; [by rewrite title_char_ascii|by apply IH].
Qed.

Lemma app_ascii s1 s2 :
  ascii_text s1 → ascii_text s2 → ascii_text (s1 +:+ s2).
Proof.
  unfold ascii_text. induction s1 as [|c s1 IH]; intros H1 H2; [done|].
  apply Forall_cons in H1 as [Hc H1]. rewrite app_String.
  constructor; [done|by apply IH].
Qed.

Lemma join_ascii ws : Forall ascii_text ws → ascii_text (join " " ws).
Proof.
  induction 1 as [|w ws Hw Hws IH]; [constructor|].
  destruct ws as [|w' ws]; [done|]. rewrite join_cons.
  apply app_ascii; [done|]. apply app_ascii; [|done].
  by repeat constructor.
Qed.

Lemma split_head_ascii s :
  ascii_text s →
  ascii_text (split_head s).1 ∧ Forall ascii_text (split_head s).2.
Proof.
  unfold ascii_text at 1.
  induction s as [|c s IH]; intros H; [by split; constructor|].
  apply Forall_cons in H as [Hc H]. destruct (IH H) as [Hw Hws].
  cbn [split_head]. destruct (split_head s) as [w ws]. cbn [fst snd] in *.
  destruct (is_space c); cbn [fst snd].
  - split; [constructor|]. unfold cons_word.
    case_bool_decide; [done|]. by constructor.
  - split; [by constructor|done].
Qed.

Lemma split_ascii s : ascii_text s → Forall ascii_text (split s).
Proof.
  intros H. unfold split. destruct (split_head_ascii s H) as [Hw Hws].
  destruct (split_head s) as [w ws]. unfold cons_word.
  case_bool_decide; [done|]. by constructor.
Qed.

(** The normalizer, word by word. *)
Lemma normalize_words s :
  normalize_station_name (Some s) = Some (join " " (title <$> split s)).
Proof.
  unfold normalize_station_name. by rewrite split_title, split_strip.
Qed.

(** X18: the normalized name is words joined by single spaces, with no
    whitespace before, after or inside a word, each word in title case (a
    second [title] leaves it alone); it is ASCII text again. *)
Theorem normalize_station_name_shape s :
  ascii_text s →
  ∃ ws,
    normalize_station_name (Some s) = Some (join " " ws)
    ∧ Forall word ws
    ∧ Forall (λ w, title w = w) ws
    ∧ ascii_text (join " " ws).
Proof.
  intros Hs. exists (title <$> split s). split; [apply normalize_words|].
  split; [|split].
  - apply Forall_fmap. eapply Forall_impl; [apply split_words|].
    intros w Hw. by apply title_word.
  - apply Forall_fmap, Forall_true. intros w. apply title_from_idempotent.
  - apply join_ascii, Forall_fmap.
    eapply Forall_impl; [by apply split_ascii|].
    intros w Hw. by apply title_from_ascii.
Qed.

(** X19: normalizing a normalized entry changes nothing. *)
Theorem normalize_station_name_idempotent text :
  (∀ s, text = Some s → ascii_text s) →
  normalize_station_name (normalize_station_name text)
  = normalize_station_name text.
Proof.
  intros _. destruct text as [s|]; [|done].
  rewrite (normalize_words s), normalize_words. do 2 f_equal.
  rewrite split_join.
  - rewrite <- list_fmap_compose. apply list_fmap_ext. intros _ w _.
    apply title_from_idempotent.
  - apply Forall_fmap. eapply Forall_impl; [apply split_words|].
    intros w Hw. by apply title_word.
Qed.

Lemma ascii_text_example : ascii_text "  paris   gare de LYON ".
Proof. apply Forall_forall. intros c Hc. vm_compute in Hc.
  repeat (apply elem_of_cons in Hc as [->|Hc]; [reflexivity|]).
  by apply elem_of_nil in Hc.
Qed.

Lemma normalize_station_name_shape_witness :
  ∃ ws,
    normalize_station_name (Some "  paris   gare de LYON ")
    = Some (join " " ws)
    ∧ Forall word ws
    ∧ Forall (λ w, title w = w) ws
    ∧ ascii_text (join " " ws).
Proof.
  apply normalize_station_name_shape, ascii_text_example.
Defined.

Lemma normalize_station_name_idempotent_witness :
  normalize_station_name
    (normalize_station_name (Some "  paris   gare de LYON "))
  = normalize_station_name (Some "  paris   gare de LYON ").
Proof.
  apply normalize_station_name_idempotent.
  intros s [= <-]. apply ascii_text_example.
Defined.

End NormalizerFacts.

(** ** Routes of normalized names *)
Module RoutesFacts.
Import Normalizer Routes NormalizerFacts.

Lemma app_assoc (a b c : string) : (a +:+ b) +:+ c = a +:+ b +:+ c.
Proof.
  induction a as [|x a IH]; [done|]. by rewrite !app_String, IH.
Qed.

Lemma cons_word_app w ws vs : cons_word w (ws ++ vs) = cons_word w ws ++ vs.
Proof. unfold cons_word. by case_bool_decide. Qed.

Lemma split_head_app_space a b :
  split_head (a +:+ " " +:+ b)
  = ((split_head a).1, (split_head a).2 ++ split b).
Proof.
  induction a as [|c a IH].
  - rewrite app_empty_l. unfold split.
    change (split_head (" " +:+ b))
      with (let '(w, ws) := split_head b in ("", cons_word w ws)).
    by destruct (split_head b).
  - rewrite app_String. cbn [split_head]. rewrite IH.
    destruct (split_head a) as [w ws]. cbn [fst snd].
    destruct (is_space c); cbn [fst snd]; [|done].
    by rewrite cons_word_app.
Qed.

Lemma split_app_space a b : split (a +:+ " " +:+ b) = split a ++ split b.
Proof.
  unfold split at 1 2. rewrite split_head_app_space.
  destruct (split_head a) as [w ws]. apply cons_word_app.
Qed.

(** The words of a route: those of the departure, [to], those of the
    arrival. *)
Lemma split_route d a :
  split ((d +:+ " to ") +:+ a) = split d ++ "to" :: split a.
Proof.
  rewrite app_assoc.
  change (" to " +:+ a) with (" " +:+ "to" +:+ " " +:+ a).
  by rewrite !split_app_space.
Qed.

Lemma first_occurrence {A} (x : A) l1 l2 l1' l2' :
  x ∉ l1 → x ∉ l1' → l1 ++ x :: l2 = l1' ++ x :: l2' →
  l1 = l1' ∧ l2 = l2'.
Proof.
  revert l1'. induction l1 as [|y l1 IH]; intros [|y' l1'] H1 H1' Heq;
    cbn [app] in Heq.
  - by injection Heq as ->.
  - injection Heq as -> _. exfalso. apply H1'. by left.
  - injection Heq as -> _. exfalso. apply H1. by left.
  - injection Heq as -> Heq.
    apply not_elem_of_cons in H1 as [_ H1].
    apply not_elem_of_cons in H1' as [_ H1'].
    by destruct (IH _ H1 H1' Heq) as [-> ->].
Qed.

(** A normalized name is its words joined, none of them [to]. *)
Lemma normalized_words n :
  normalize_station_name (Some n) = Some n →
  n = join " " (split n) ∧ ("to" ∉ split n).
Proof.
  rewrite normalize_words. intros [= Hn].
  assert (Hs : split n = title <$> split n).
  { rewrite <- Hn at 1. apply split_join, Forall_fmap.
    eapply Forall_impl; [apply split_words|]. intros w Hw.
    by apply title_word. }
  split; [by rewrite Hs|]. rewrite Hs. intros Hin.
  apply list_elem_of_fmap in Hin as (w & Hw & _).
  assert (Ht : title "to" = "to")
    by (rewrite Hw; unfold title; by rewrite title_from_idempotent).
  discriminate Ht.
Qed.

(** X20: rows of normalized station names that have the same route have
    the same departure station and the same arrival station. *)
Theorem route_names_both_stations departure arrival departure' arrival' r :
  normalized departure →
  normalized arrival →
  normalized departure' →
  normalized arrival' →
  Route departure arrival = Some r →
  Route departure' arrival' = Some r →
  departure = departure' ∧ arrival = arrival'.
Proof.
  intros [Hd _] [Ha _] [Hd' _] [Ha' _] Hr Hr'.
  destruct departure as [d|], arrival as [a|]; try discriminate Hr.
  destruct departure' as [d'|], arrival' as [a'|]; try discriminate Hr'.
  cbn in Hr, Hr'. injection Hr as <-. injection Hr' as Heq.
  apply normalized_words in Hd as [Hd Hdt], Ha as [Ha _],
    Hd' as [Hd' Hdt'], Ha' as [Ha' _].
  apply (f_equal split) in Heq. rewrite !split_route in Heq.
  apply first_occurrence in Heq as [Hds Has]; [|done..].
  rewrite Hd, Ha, Hd', Ha', Hds, Has. done.
Qed.

Lemma route_names_both_stations_witness :
  Some "Paris Lyon" = Some "Paris Lyon"
  ∧ Some "Lyon Part Dieu" = Some "Lyon Part Dieu".
Proof.
  apply (route_names_both_stations _ _ _ _ "Paris Lyon to Lyon Part Dieu");
    try reflexivity;
    (split; [reflexivity|]); intros s [= <-];
    apply (bool_decide_unpack (ascii_text _)); reflexivity.
Defined.

(** Names that were not normalized can share a route and differ. *)
Example route_of_other_names :
  Route (Some "A to B") (Some "C") = Route (Some "A") (Some "B to C").
Proof. reflexivity. Qed.

(** A row without one of its stations has no route. *)
Example route_of_missing_station :
  Route None (Some "Lyon Part Dieu") = None
  ∧ Route (Some "Paris Lyon") None = None.
Proof. done. Qed.

End RoutesFacts.

(** ** The categorical fill *)
Module CategoricalFillFacts.
Import CategoricalFill.

Example fill_most_common_example :
  fill_most_common example_services
  = inl [Some "TGV"; Some "Intercites"; Some "Intercites";
         Some "TGV"; Some "Intercites"; Some "Intercites"].
Proof. vm_compute. reflexivity. Qed.

(** *** The order of text *)
Lemma compare_not_Gt_trans a b c :
  String.compare a b ≠ Gt → String.compare b c ≠ Gt →
  String.compare a c ≠ Gt.
Proof.
  revert b c. induction a as [|x a IH]; intros [|y b] [|z c]; simpl;
    try done.
  unfold Ascii.compare.
  destruct (N.compare_spec (N_of_ascii x) (N_of_ascii y)) as [Hxy|Hxy|Hxy];
    destruct (N.compare_spec (N_of_ascii y) (N_of_ascii z)) as [Hyz|Hyz|Hyz];
    try done.
  - rewrite Hxy, Hyz, N.compare_refl. apply IH.
  - intros _ _. by rewrite Hxy, (proj2 (N.compare_lt_iff _ _) Hyz).
  - intros _ _. by rewrite <- Hyz, (proj2 (N.compare_lt_iff _ _) Hxy).
  - intros _ _.
    by rewrite (proj2 (N.compare_lt_iff _ _) (N.lt_trans _ _ _ Hxy Hyz)).
Qed.

Lemma str_le_compare a b : str_le a b ↔ String.compare a b ≠ Gt.
Proof. unfold str_le, String.leb. by destruct (String.compare a b). Qed.

#[local] Instance str_le_trans : Transitive str_le.
Proof.
  intros a b c. rewrite !str_le_compare. apply compare_not_Gt_trans.
Qed.

#[local] Instance str_le_total : Total str_le.
Proof. intros a b. apply String.leb_total. Qed.

Lemma str_le_refl a : str_le a a.
Proof. by destruct (str_le_total a a). Qed.

(** *** Counting *)
Lemma value_count_pos col v : Some v ∈ col ↔ (0 < value_count col v)%nat.
Proof.
  unfold value_count. split.
  - intros Hin.
    assert (Hf : Some v ∈ filter (λ x, x = Some v) col)
      by (by apply list_elem_of_filter).
    destruct (filter _ col); [by apply elem_of_nil in Hf|simpl; lia].
  - intros Hlen. destruct (filter (λ x, x = Some v) col) as [|x l] eqn:Hf;
      [simpl in Hlen; lia|].
    assert (Hx : x ∈ filter (λ x, x = Some v) col)
      by (rewrite Hf; by left).
    apply list_elem_of_filter in Hx as [-> Hx]. done.
Qed.

Lemma elem_of_dropna col v : v ∈ dropna col ↔ Some v ∈ col.
Proof.
  unfold dropna. split.
  - intros H. apply list_elem_of_omap in H as (x & Hx & Hid).
    unfold id in Hid. by subst.
  - intros H. apply list_elem_of_omap. by exists (Some v).
Qed.

(** The entries of [mode]: the values of the column that none
    outnumbers. *)
Lemma elem_of_mode col v :
  v ∈ mode col ↔
  Some v ∈ col ∧ ∀ w, (value_count col w ≤ value_count col v)%nat.
Proof.
  unfold mode. rewrite merge_sort_Permutation, list_elem_of_filter,
    elem_of_remove_dups, elem_of_dropna.
  set (values := remove_dups (dropna col)).
  split.
  - intros [Hv Hin]. split; [done|]. intros w.
    destruct (decide (Some w ∈ col)) as [Hw|Hw].
    + rewrite Hv. apply max_list_elem_of_le, list_elem_of_fmap.
      exists w. split; [done|].
      by apply elem_of_remove_dups, elem_of_dropna.
    + rewrite value_count_pos in Hw. lia.
  - intros [Hin Hmax]. split; [|done].
    assert (Hne : value_count col <$> values ≠ []).
    { intros Hnil. apply fmap_nil_inv in Hnil.
      assert (Hv : v ∈ values)
        by (by apply elem_of_remove_dups, elem_of_dropna).
      rewrite Hnil in Hv. by apply elem_of_nil in Hv. }
    apply max_list_elem_of, list_elem_of_fmap in Hne as (w & Hw & _).
    assert (Hle : (value_count col v ≤ max_list (value_count col <$> values))%nat).
    { apply max_list_elem_of_le, list_elem_of_fmap. exists v.
      split; [done|]. by apply elem_of_remove_dups, elem_of_dropna. }
    specialize (Hmax w). lia.
Qed.

Lemma mode_inhabited col v0 : Some v0 ∈ col → mode col ≠ [].
Proof.
  intros H0 Hm.
  assert (Hne : value_count col <$> remove_dups (dropna col) ≠ []).
  { intros Hnil. apply fmap_nil_inv in Hnil.
    assert (Hv : v0 ∈ remove_dups (dropna col))
      by (by apply elem_of_remove_dups, elem_of_dropna).
    rewrite Hnil in Hv. by apply elem_of_nil in Hv. }
  apply max_list_elem_of, list_elem_of_fmap in Hne as (w & Hw & Hin).
  assert (Hwm : w ∈ mode col).
  { unfold mode. rewrite merge_sort_Permutation, list_elem_of_filter.
    done. }
  rewrite Hm in Hwm. by apply elem_of_nil in Hwm.
Qed.

Lemma mode_sorted col : StronglySorted str_le (mode col).
Proof. apply StronglySorted_merge_sort; apply _. Qed.

Lemma fillna_nothing_missing value col : None ∉ fillna value col.
Proof.
  unfold fillna. intros H. apply list_elem_of_fmap in H as (x & Hx & _).
  by destruct x.
Qed.

(** X21: in a column that has a value, the fill puts the most common value
    wherever one is missing: a value of the column that none outnumbers,
    the first in the order of text among those as common.  The column
    keeps its length, an entry that was there stays, and a missing entry
    becomes that value. *)
Theorem fill_most_common_value col v0 :
  Some v0 ∈ col →
  ∃ v filled,
    fill_most_common col = inl filled
    ∧ Some v ∈ col
    ∧ (∀ w, (value_count col w ≤ value_count col v)%nat)
    ∧ (∀ w, value_count col w = value_count col v → str_le v w)
    ∧ length filled = length col
    ∧ (∀ i x, col !! i = Some x →
              filled !! i
              = Some (Some (match x with Some w => w | None => v end))).
Proof.
  intros H0. unfold fill_most_common.
  pose proof (elem_of_mode col) as Hmode.
  pose proof (mode_sorted col) as Hsorted.
  pose proof (mode_inhabited col v0 H0) as Hne.
  destruct (mode col) as [|v rest] eqn:Hm; [done|].
  exists v, (fillna v col). cbn [lookup list_lookup].
  destruct (proj1 (Hmode v) ltac:(by left)) as [Hin Hmax].
  split; [done|]. split; [done|]. split; [done|].
  split; [|split].
  - intros w Hw.
    assert (Hwm : w ∈ v :: rest).
    { apply Hmode. split.
      - apply value_count_pos. rewrite Hw. by apply value_count_pos.
      - intros u. rewrite Hw. apply Hmax. }
    apply elem_of_cons in Hwm as [->|Hwm]; [apply str_le_refl|].
    apply StronglySorted_inv in Hsorted as [_ Hall].
    by apply (proj1 (Forall_forall _ _) Hall).
  - unfold fillna. by rewrite length_fmap.
  - intros i x Hi. unfold fillna. rewrite list_lookup_fmap, Hi.
    by destruct x.
Qed.

Lemma fill_most_common_value_witness :
  ∃ v filled,
    fill_most_common example_services = inl filled
    ∧ Some v ∈ example_services
    ∧ (∀ w, (value_count example_services w
             ≤ value_count example_services v)%nat)
    ∧ (∀ w, value_count example_services w = value_count example_services v →
            str_le v w)
    ∧ length filled = length example_services
    ∧ (∀ i x, example_services !! i = Some x →
              filled !! i
              = Some (Some (match x with Some w => w | None => v end))).
Proof.
  apply (fill_most_common_value _ "TGV"). by left.
Defined.

(** X22: the fill raises KeyError exactly on a column with no value at
    all, the empty column among them. *)
Theorem fill_most_common_raises col :
  fill_most_common col = inr (KeyError 0) ↔ ∀ x, x ∈ col → x = None.
Proof.
  split.
  - intros Hraise [v|] Hx; [|done]. exfalso.
    apply mode_inhabited in Hx. unfold fill_most_common in Hraise.
    by destruct (mode col).
  - intros Hall. unfold fill_most_common.
    destruct (mode col) as [|v rest] eqn:Hm; [done|]. exfalso.
    assert (Hv : v ∈ mode col) by (rewrite Hm; by left).
    apply elem_of_mode in Hv as [Hv _]. by apply Hall in Hv.
Qed.

End CategoricalFillFacts.
